(** * The turn-taking dialogue loops of the AgentScope sample scripts

    The scripts [main.py], [sample1_basic_dialogue.py], [sample2_with_llm.py],
    [sample3_with_tool.py] and [sample4_multi_agent.py] sequence calls between
    a console responder ([UserAgent]) and responders of the agent framework
    ([ReActAgent]), or between two hand-written [DialogueAgent]s.

    The framework's responders are not part of the repository: a call to one
    of them is an interaction with the environment.  A script is therefore
    embedded as a computation that runs against an _environment_, the list of
    the outcomes of the awaited calls in order (a reply, or an exception
    raised), and that records what it prints and which responder it calls
    with which message.

    - [await a(x)] issues the call and completes with the next outcome; with
      no outcome left the computation is suspended there for good.
    - [try: asyncio.run(main())] is embedded as [try_except main]: what
      leaves [main] leaves [asyncio.run].  An exception is a
      [KeyboardInterrupt] or an [Exception]; the exceptions that are
      neither ([SystemExit], a cancellation) pass both handlers of the
      scripts and are not in the embedding.
    - How [asyncio.run] brings an interrupt of the operator to a script is
      not in the scripts: [after_interrupt] gives what it can turn the
      awaited call into.
    - The constructors of the framework ([agentscope.init],
      [OllamaChatModel], [ReActAgent], [UserAgent], [Toolkit]) configure the
      responders and are not events, and their failures are not in the
      embedding; a responder is named by the variable it is bound to.
    - What a responder prints or does on its own while it is called is the
      responder's, and is not in the trace; this includes the tool
      [get_current_time] that sample3_with_tool.py and main.py register,
      which the assistant runs during its call. *)

From Stdlib Require Import String Ascii List Bool Arith Lia.
Import ListNotations.
Open Scope string_scope.

(** ** Messages *)

(** [agentscope.message.Msg] as the scripts use it: built with the keywords
    [name], [content] and [role], read through [.name] and [.content]. *)
Module message.

Inductive Role : Type := system | user | assistant.

Record Msg : Type := mkMsg { name : string; content : string; role : Role }.

End message.
Import message.

(** ** Responders, outcomes and events *)

(** The framework responders the looping scripts bind to variables. *)
Inductive Agent : Type :=
| user_agent        (* UserAgent(name="ユーザー") *)
| assistant_agent   (* ReActAgent(name="アシスタント", ...) *)
| planner_agent     (* ReActAgent(name="プランナー", ...) *)
| critic_agent.     (* ReActAgent(name="クリティック", ...) *)

Definition Agent_eqb (a b : Agent) : bool :=
  match a, b with
  | user_agent, user_agent
  | assistant_agent, assistant_agent
  | planner_agent, planner_agent
  | critic_agent, critic_agent => true
  | _, _ => false
  end.

(** What can be raised at an [await]: [KeyboardInterrupt] derives from
    [BaseException] and is not an [Exception]; every other error is an
    [Exception] and is known to the scripts through [str(e)] only. *)
Inductive exn : Type :=
| KeyboardInterrupt
| Exception (description : string).

(** What the environment does with one awaited call. *)
Inductive outcome : Type :=
| Reply (m : Msg)
| Raise (e : exn).

(** What an observer of the process sees. *)
Inductive event : Type :=
| Print (s : string)                    (* print(s) *)
| Call (a : Agent) (x : option Msg)     (* a(x) is awaited; [None]: a() or a(None) *)
| Return (a : Agent) (o : outcome).     (* the awaited call of [a] completes *)

(** ** The monad of the scripts *)

Inductive result (A : Type) : Type :=
| Val (a : A)     (* ran to the end *)
| Exn (e : exn)   (* an exception is propagating *)
| Pending         (* suspended at an await that the environment never answers *)
| OutOfFuel.      (* the bound of [loop] was reached; see [while_true] *)
Arguments Val {A} a.
Arguments Exn {A} e.
Arguments Pending {A}.
Arguments OutOfFuel {A}.

Record run (A : Type) : Type :=
  mkRun { trace : list event; res : result A; rest : list outcome }.
Arguments mkRun {A} trace res rest.
Arguments trace {A} r.
Arguments res {A} r.
Arguments rest {A} r.

Definition M (A : Type) : Type := list outcome -> run A.

Definition ret {A} (a : A) : M A := fun env => mkRun [] (Val a) env.

Definition bind {A B} (m : M A) (k : A -> M B) : M B :=
  fun env =>
    let r := m env in
    match res r with
    | Val a => let r' := k a (rest r) in
               mkRun (trace r ++ trace r') (res r') (rest r')
    | Exn e => mkRun (trace r) (Exn e) (rest r)
    | Pending => mkRun (trace r) Pending (rest r)
    | OutOfFuel => mkRun (trace r) OutOfFuel (rest r)
    end.

Notation "x <- m ;; k" := (bind m (fun x => k))
  (at level 61, m at next level, right associativity).
Notation "m ;; k" := (bind m (fun _ => k))
  (at level 61, right associativity).

Definition print (s : string) : M unit :=
  fun env => mkRun [Print s] (Val tt) env.

(** [await a(x)]: the call is issued, and the next outcome of the
    environment decides how it completes. *)
Definition await (a : Agent) (x : option Msg) : M Msg :=
  fun env =>
    match env with
    | [] => mkRun [Call a x] Pending []
    | Reply m :: env' => mkRun [Call a x; Return a (Reply m)] (Val m) env'
    | Raise e :: env' => mkRun [Call a x; Return a (Raise e)] (Exn e) env'
    end.

(** [while True:] with [break].  The body maps the loop variables to the
    next ones. *)
Inductive ctl (St : Type) : Type :=
| Continue (s : St)
| Break.
Arguments Continue {St} s.
Arguments Break {St}.

Fixpoint loop {St} (fuel : nat) (body : St -> M (ctl St)) (s : St) : M unit :=
  match fuel with
  | 0 => fun env => mkRun [] OutOfFuel env
  | S fuel' =>
      c <- body s ;;
      match c with
      | Continue s' => loop fuel' body s'
      | Break => ret tt
      end
  end.

(** Every round of the scripts' loops awaits the console first, so an
    environment of [n] outcomes drives at most [n] complete rounds and one
    more that suspends: the bound [S (length env)] is never reached
    ([scripts_are_fuelled]), and the loop runs its body and then itself
    ([while_true_unfold]). *)
Definition while_true {St} (body : St -> M (ctl St)) (s : St) : M unit :=
  fun env => loop (S (length env)) body s env.

(** [try: m  except ...:], the handlers given as a partial function. *)
Definition try_except {A} (m : M A) (handler : exn -> option (M A)) : M A :=
  fun env =>
    let r := m env in
    match res r with
    | Exn e =>
        match handler e with
        | Some k => let r' := k (rest r) in
                    mkRun (trace r ++ trace r') (res r') (rest r')
        | None => r
        end
    | _ => r
    end.

(** A run of [print] statements before [k]. *)
Fixpoint print_all {B} (lines : list string) (k : M B) : M B :=
  match lines with
  | [] => k
  | s :: lines' => print s ;; print_all lines' k
  end.

(** ** Strings of the scripts *)

Definition nl : string := String (ascii_of_nat 10) EmptyString.

(** ["-"*20] *)
Definition dashes : string := "--------------------".

(** [OllamaChatModel(model_name=...)], read back through [.model_name]. *)
Record OllamaChatModel : Type := mkOllamaChatModel { model_name : string }.

(** ** sample1_basic_dialogue.py *)

Module sample1_basic_dialogue.

(** [class DialogueAgent(AgentBase)]: [__init__] stores its two arguments. *)
Record DialogueAgent : Type :=
  __init__ { name : string; response_text : string }.

Definition reply (self : DialogueAgent) (x : Msg) : M Msg :=
  print ("[" ++ name self ++ "]がメッセージを受信: '" ++ content x ++ "'") ;;
  let response_msg :=
    mkMsg (name self) (response_text self) assistant in
  ret response_msg.

Definition agent_alice : DialogueAgent :=
  __init__ "アリス" "こんにちは、ボブ！私はアリスです。".

Definition agent_bob : DialogueAgent :=
  __init__ "ボブ" "やあ、アリス！元気かい？".

(** [await agent(msg)] on a [DialogueAgent] reaches [reply] through
    [AgentBase.__call__]. *)
Definition main : M unit :=
  print "--- 対話を開始します ---" ;;
  let initial_msg :=
    mkMsg "システム" "アリスさん、ボブさんに挨拶してください。" system in
  print ("[" ++ message.name initial_msg ++ "]から送信: '"
             ++ content initial_msg ++ "'") ;;
  alice_response <- reply agent_alice initial_msg ;;
  print ("[" ++ message.name alice_response ++ "]から送信: '"
             ++ content alice_response ++ "'") ;;
  bob_response <- reply agent_bob alice_response ;;
  print ("[" ++ message.name bob_response ++ "]から送信: '"
             ++ content bob_response ++ "'") ;;
  print (nl ++ "--- 対話が終了しました ---").

(** The statements of the module, then the [__main__] block. *)
Definition __main__ : M unit :=
  print "2体のエージェントを作成します..." ;;
  print ("エージェント '" ++ name agent_alice ++ "' と '"
             ++ name agent_bob ++ "' を作成しました。" ++ nl) ;;
  main.

End sample1_basic_dialogue.

(** ** sample2_with_llm.py *)

Module sample2_with_llm.

(** One pass through the body of [while True:]; [msg] is the loop's
    variable. *)
Definition while_body (msg : option Msg) : M (ctl (option Msg)) :=
  msg <- await user_agent msg ;;
  if content msg =? "exit" then
    print "対話を終了します。" ;;
    ret Break
  else
    assistant_response <- await assistant_agent (Some msg) ;;
    let msg := assistant_response in
    ret (Continue (Some msg)).

Definition main : M unit :=
  print "AgentScopeを初期化しています..." ;;
  print "Ollamaモデルを設定しています..." ;;
  let llm_model := mkOllamaChatModel "gpt-oss:20b" in
  print ("モデル '" ++ model_name llm_model ++ "' の設定が完了しました。") ;;
  print "アシスタントエージェントを作成しています..." ;;
  print "ユーザーエージェントを作成しています..." ;;
  print ("エージェントの作成が完了しました。" ++ nl) ;;
  print "--- 対話を開始します ---" ;;
  print "対話を終了するには 'exit' と入力してください。" ;;
  print "アシスタントへの最初の質問を入力してください。" ;;
  let msg := None in
  while_true while_body msg.

Definition __main__ : M unit :=
  try_except main
    (fun e =>
       match e with
       | KeyboardInterrupt =>
           Some (print (nl ++ "プログラムが中断されました。"))
       | Exception e =>
           Some (print (nl ++ "エラーが発生しました: " ++ e))
       end).

End sample2_with_llm.

(** ** sample3_with_tool.py *)

Module sample3_with_tool.

Definition while_body (msg : option Msg) : M (ctl (option Msg)) :=
  msg <- await user_agent msg ;;
  if content msg =? "exit" then
    print "対話を終了します。" ;;
    ret Break
  else
    assistant_response <- await assistant_agent (Some msg) ;;
    let msg := assistant_response in
    ret (Continue (Some msg)).

Definition main : M unit :=
  print "AgentScopeを初期化しています..." ;;
  print "Ollamaモデルを設定しています..." ;;
  let llm_model := mkOllamaChatModel "gemma:2b" in
  print ("モデル '" ++ model_name llm_model ++ "' の設定が完了しました。") ;;
  print "ツールキットを作成し、ツールを登録しています..." ;;
  print "ツールの登録が完了しました。" ;;
  print "アシスタントエージェントを作成しています..." ;;
  print "ユーザーエージェントを作成しています..." ;;
  print ("エージェントの作成が完了しました。" ++ nl) ;;
  print "--- 対話を開始します ---" ;;
  print "対話を終了するには 'exit' と入力してください。" ;;
  print "アシスタントへの最初の質問を入力してください。例：今の時間は？" ;;
  let msg := None in
  while_true while_body msg.

Definition __main__ : M unit :=
  try_except main
    (fun e =>
       match e with
       | KeyboardInterrupt =>
           Some (print (nl ++ "プログラムが中断されました。"))
       | Exception e =>
           Some (print (nl ++ "エラーが発生しました: " ++ e))
       end).

End sample3_with_tool.

(** ** sample4_multi_agent.py *)

Module sample4_multi_agent.

(** The loop carries no variable from one round to the next. *)
Definition while_body (_ : unit) : M (ctl unit) :=
  user_msg <- await user_agent None ;;
  if content user_msg =? "exit" then
    print "対話を終了します。" ;;
    ret Break
  else
    print (nl ++ "--- [ユーザー]さんのリクエスト: ---" ++ nl
              ++ content user_msg ++ nl ++ dashes) ;;
    print (nl ++ "--- [プランナー]が計画を立案中... ---") ;;
    plan_msg <- await planner_agent (Some user_msg) ;;
    print (nl ++ "--- [プランナー]からの計画案: ---" ++ nl
              ++ content plan_msg ++ nl ++ dashes) ;;
    print (nl ++ "--- [クリティック]が計画をレビュー中... ---") ;;
    critique_msg <- await critic_agent (Some plan_msg) ;;
    print (nl ++ "--- [クリティック]からの改善案: ---" ++ nl
              ++ content critique_msg ++ nl ++ dashes) ;;
    print (nl ++ "★★★ 最終的な提案 ★★★") ;;
    print ("【計画案】" ++ nl ++ content plan_msg) ;;
    print (nl ++ "【改善案】" ++ nl ++ content critique_msg) ;;
    print ("★★★★★★★★★★★★★★★★" ++ nl) ;;
    print "次のタスクを入力してください。('exit'で終了)" ;;
    ret (Continue tt).

Definition main : M unit :=
  print "AgentScopeを初期化しています..." ;;
  print "Ollamaモデルを設定しています..." ;;
  let llm_model := mkOllamaChatModel "gemma:2b" in
  print ("モデル '" ++ model_name llm_model ++ "' の設定が完了しました。") ;;
  print "プランナーエージェントを作成しています..." ;;
  print "クリティックエージェントを作成しています..." ;;
  print "ユーザーエージェントを作成しています..." ;;
  print ("エージェントの作成が完了しました。" ++ nl) ;;
  print "--- 複数エージェントによる協調タスクを開始します ---" ;;
  print "計画したいタスクを入力してください。例：Pythonを学ぶための計画を立てて" ;;
  print "終了するには 'exit' と入力してください。" ;;
  while_true while_body tt.

Definition __main__ : M unit :=
  try_except main
    (fun e =>
       match e with
       | KeyboardInterrupt =>
           Some (print (nl ++ "プログラムが中断されました。"))
       | Exception e =>
           Some (print (nl ++ "エラーが発生しました: " ++ e))
       end).

End sample4_multi_agent.

(** ** main.py *)

Module main_py.

Definition while_body (msg : option Msg) : M (ctl (option Msg)) :=
  msg <- await user_agent msg ;;
  if content msg =? "exit" then
    print "対話を終了します。" ;;
    ret Break
  else
    msg <- await assistant_agent (Some msg) ;;
    ret (Continue (Some msg)).

Definition main : M unit :=
  print (nl ++ "--- 対話を開始します ---") ;;
  print "対話を終了するには 'exit' と入力してください。" ;;
  print "最初の質問を入力してください。例: こんにちは、今の時間は？" ;;
  let msg := None in
  while_true while_body msg.

(** The statements of the module, then the [__main__] block, which has no
    handler for [Exception]. *)
Definition __main__ : M unit :=
  print "AgentScope Studioへの接続を初期化しています..." ;;
  print "初期化が完了しました。" ;;
  print "Ollamaモデルを設定しています..." ;;
  print "モデルの設定が完了しました。" ;;
  print "アシスタントエージェントを作成しています..." ;;
  print "ユーザーエージェントを作成しています..." ;;
  print "エージェントの作成が完了しました。" ;;
  try_except main
    (fun e =>
       match e with
       | KeyboardInterrupt =>
           Some (print (nl ++ "プログラムが中断されました。"))
       | Exception _ => None
       end).

End main_py.

(** ** Observations on traces *)

Open Scope list_scope.

(** The responder calls of a trace, in order, each with its argument. *)
Fixpoint invocations (tr : list event) : list (Agent * option Msg) :=
  match tr with
  | [] => []
  | Call a x :: tr' => (a, x) :: invocations tr'
  | _ :: tr' => invocations tr'
  end.

(** The arguments of the [print] calls, in order (an argument that holds
    line feeds is several lines of the console). *)
Fixpoint printed (tr : list event) : list string :=
  match tr with
  | [] => []
  | Print s :: tr' => s :: printed tr'
  | _ :: tr' => printed tr'
  end.




(** One responder call at a time: [scan busy tr] runs over [tr], [busy]
    telling whether a call is outstanding, and answers the final [busy], or
    [None] if a call starts while another is outstanding, a call completes
    that is not the outstanding one, or the script prints while it waits. *)
Fixpoint scan (busy : option Agent) (tr : list event) : option (option Agent) :=
  match tr with
  | [] => Some busy
  | Print _ :: tr' =>
      match busy with None => scan None tr' | Some _ => None end
  | Call a _ :: tr' =>
      match busy with None => scan (Some a) tr' | Some _ => None end
  | Return a _ :: tr' =>
      match busy with
      | Some b => if Agent_eqb a b then scan None tr' else None
      | None => None
      end
  end.

Definition is_pending {A} (r : result A) : bool :=
  match r with Pending => true | _ => false end.

(** ** Properties of computations *)

(** A computation never puts outcomes back. *)
Definition monotone {A} (m : M A) : Prop :=
  forall env, length (rest (m env)) <= length env.

(** A computation that completes has consumed an outcome. *)
Definition consuming {A} (m : M A) : Prop :=
  forall env a, res (m env) = Val a -> length (rest (m env)) < length env.

(** A computation that is not suspended has seen only the outcomes it
    consumed: what follows them in the environment is left as it is. *)
Definition framed {A} (m : M A) : Prop :=
  forall env ext,
    res (m env) <> Pending ->
    m (env ++ ext) = mkRun (trace (m env)) (res (m env)) (rest (m env) ++ ext).

(** A suspended computation has consumed every outcome and waits at a
    call; an exception raised there propagates out of it at once. *)
Definition resumable {A} (m : M A) : Prop :=
  forall env,
    res (m env) = Pending ->
    rest (m env) = [] /\
    exists a x tr0,
      trace (m env) = tr0 ++ [Call a x] /\
      forall e ext,
        m (env ++ Raise e :: ext)
        = mkRun (trace (m env) ++ [Return a (Raise e)]) (Exn e) ext.

(** A computation awaits one call at a time, and has a call outstanding at
    the end exactly when it is suspended. *)
Definition sequential {A} (m : M A) : Prop :=
  forall env,
    exists busy,
      scan None (trace (m env)) = Some busy /\
      (is_pending (res (m env)) = true <-> busy <> None).

(** A computation run on the outcomes it consumed, and no more, does the
    same. *)
Definition local {A} (m : M A) : Prop :=
  forall env,
    exists used,
      env = used ++ rest (m env)
      /\ m used = mkRun (trace (m env)) (res (m env)) [].

(** Every call of a run is a point of suspension: with the outcomes consumed
    before the call and no more, the computation issues the call and is
    suspended there. *)
Definition suspending {A} (m : M A) : Prop :=
  forall env p a x q,
    trace (m env) = p ++ Call a x :: q ->
    exists env0 ext,
      env = env0 ++ ext /\ m env0 = mkRun (p ++ [Call a x]) Pending [].

(** The bound of [loop] is never what stops a computation. *)
Definition fuelled {A} (m : M A) : Prop :=
  forall env, res (m env) <> OutOfFuel.

(** The properties above that do not depend on what the computation
    does between two calls; every script below has them. *)
Record behaved {A} (m : M A) : Prop :=
  mkBehaved {
      behaved_monotone : monotone m;
      behaved_fuelled : fuelled m;
      behaved_framed : framed m;
      behaved_resumable : resumable m;
      behaved_sequential : sequential m;
      behaved_local : local m;
      behaved_suspending : suspending m
    }.

(** ** The termination check of a loop *)

(** What the check [if msg.content == "exit":] of a loop with body [body]
    does with a message [m] that the console responder returns: the body
    breaks exactly when the content of [m] is "exit"; the loop then prints
    its last line and returns, and otherwise calls [next] with [m].
    [prior s] is what the console responder is called with when the loop
    variables are [s]. *)
Definition exact_exit_check {St} (body : St -> M (ctl St))
    (prior : St -> option Msg) (next : Agent) : Prop :=
  forall (s : St) (m : Msg) (env : list outcome),
    (res (body s (Reply m :: env)) = Val Break <-> content m = "exit"%string)
    /\ (content m = "exit"%string ->
        while_true body s (Reply m :: env)
        = mkRun [Call user_agent (prior s);
                 Return user_agent (Reply m);
                 Print "対話を終了します。"]
                (Val tt) env)
    /\ (content m <> "exit"%string ->
        exists calls,
          invocations (trace (while_true body s (Reply m :: env)))
          = (user_agent, prior s) :: (next, Some m) :: calls).

(** ** The events of one round of the relay of sample4_multi_agent.py *)

(** From the prompt to the call of the planner, the task being [T]. *)
Definition relay_request (T : Msg) : list event :=
  [Call user_agent None;
   Return user_agent (Reply T);
   Print (nl ++ "--- [ユーザー]さんのリクエスト: ---" ++ nl
             ++ content T ++ nl ++ dashes)%string;
   Print (nl ++ "--- [プランナー]が計画を立案中... ---")%string;
   Call planner_agent (Some T)].

(** From the plan [P] to the call of the critic. *)
Definition relay_plan (P : Msg) : list event :=
  [Return planner_agent (Reply P);
   Print (nl ++ "--- [プランナー]からの計画案: ---" ++ nl
             ++ content P ++ nl ++ dashes)%string;
   Print (nl ++ "--- [クリティック]が計画をレビュー中... ---")%string;
   Call critic_agent (Some P)].

(** From the critique [C] to the end of the round. *)
Definition relay_critique (P C : Msg) : list event :=
  [Return critic_agent (Reply C);
   Print (nl ++ "--- [クリティック]からの改善案: ---" ++ nl
             ++ content C ++ nl ++ dashes)%string;
   Print (nl ++ "★★★ 最終的な提案 ★★★")%string;
   Print ("【計画案】" ++ nl ++ content P)%string;
   Print (nl ++ "【改善案】" ++ nl ++ content C)%string;
   Print ("★★★★★★★★★★★★★★★★" ++ nl)%string;
   Print "次のタスクを入力してください。('exit'で終了)"].

Definition relay_round (T P C : Msg) : list event :=
  relay_request T ++ relay_plan P ++ relay_critique P C.

(** ** A script around its loop *)

(** [entry], the whole of a script, prints some lines, runs the loop
    [dialogue] and handles what the loop raises: [KeyboardInterrupt] by a
    line on the console and, when [catches_exception], every [Exception] by
    a line with its description; an exception without a handler leaves the
    script. *)
Definition runs_loop (entry dialogue : M unit) (catches_exception : bool)
  : Prop :=
  exists banner : list string,
    forall env,
      let r := dialogue env in
      entry env
      = match res r with
        | Exn KeyboardInterrupt =>
            mkRun (map Print banner ++ trace r
                     ++ [Print (nl ++ "プログラムが中断されました。")%string])
                  (Val tt) (rest r)
        | Exn (Exception d) =>
            if catches_exception then
              mkRun (map Print banner ++ trace r
                       ++ [Print (nl ++ "エラーが発生しました: " ++ d)%string])
                    (Val tt) (rest r)
            else
              mkRun (map Print banner ++ trace r) (Exn (Exception d)) (rest r)
        | _ => mkRun (map Print banner ++ trace r) (res r) (rest r)
        end.

(** ** What the scripts are expected to do *)

(** "exit" as the first line: the script prints its last line and ends,
    having called the console responder and nothing else. *)
Definition exits_on_first_line (entry : M unit) : Prop :=
  forall (m : Msg) (env : list outcome),
    content m = "exit"%string ->
    exists banner : list string,
      entry (Reply m :: env)
      = mkRun (map Print banner
                 ++ [Call user_agent None;
                     Return user_agent (Reply m);
                     Print "対話を終了します。"])
              (Val tt) env
      /\ invocations (trace (entry (Reply m :: env))) = [(user_agent, None)].

(** The first call of the script is the console responder's, with no
    message, and before it the script only prints. *)
Definition first_prompt_has_no_prior (entry : M unit) : Prop :=
  forall env : list outcome,
    exists (banner : list string) (tl : list event),
      trace (entry env) = map Print banner ++ Call user_agent None :: tl.

(** Two parties: after the input [U] the reply [A] of the assistant is the
    loop's message, and the next round calls the console responder with
    it. *)
Definition reply_is_carried_forward
    (body : option Msg -> M (ctl (option Msg))) : Prop :=
  forall (prior : option Msg) (U A : Msg) (env : list outcome),
    content U <> "exit"%string ->
    res (body prior (Reply U :: Reply A :: env)) = Val (Continue (Some A))
    /\ (let r := while_true body (Some A) env in
        while_true body prior (Reply U :: Reply A :: env)
        = mkRun ([Call user_agent prior;
                  Return user_agent (Reply U);
                  Call assistant_agent (Some U);
                  Return assistant_agent (Reply A)] ++ trace r)
                (res r) (rest r))
    /\ exists tl,
        trace (while_true body (Some A) env)
        = Call user_agent (Some A) :: tl.

(** The outcomes of complete rounds of the relay, each round given by its
    task, plan and critique, and the events of these rounds. *)
Definition relay_outcomes (rounds : list (Msg * Msg * Msg)) : list outcome :=
  flat_map (fun '(T, P, C) => [Reply T; Reply P; Reply C]) rounds.

Definition relay_trace (rounds : list (Msg * Msg * Msg)) : list event :=
  flat_map (fun '(T, P, C) => relay_round T P C) rounds.

(** The script is suspended after the outcomes [env0], at the call that
    ends its trace.  When that call raises [e], the script goes on with the
    events [after] and ends as [final]; whatever the environment holds next
    is not consumed. *)
Definition raised_at_suspension (entry : M unit) (e : exn)
    (after : list event) (final : result unit) : Prop :=
  forall env0 : list outcome,
    res (entry env0) = Pending ->
    exists (a : Agent) (x : option Msg) (tr0 : list event),
      trace (entry env0) = tr0 ++ [Call a x]
      /\ forall ext : list outcome,
          entry (env0 ++ Raise e :: ext)
          = mkRun (tr0 ++ [Call a x; Return a (Raise e)] ++ after) final ext.

(** Every call of every run of the script is such a point of suspension:
    the outcomes consumed before the call take the script to it. *)
Definition every_call_suspends (entry : M unit) : Prop :=
  forall env p a x q,
    trace (entry env) = p ++ Call a x :: q ->
    exists env0 ext,
      env = env0 ++ ext
      /\ res (entry env0) = Pending
      /\ trace (entry env0) = p ++ [Call a x].


Definition exception_is_reported (entry : M unit) : Prop :=
  every_call_suspends entry
  /\ forall d : string,
      raised_at_suspension entry (Exception d)
        [Print (nl ++ "エラーが発生しました: " ++ d)%string] (Val tt).

Definition exception_is_unhandled (entry : M unit) : Prop :=
  every_call_suspends entry
  /\ forall d : string,
      raised_at_suspension entry (Exception d) [] (Exn (Exception d)).



(** ** Messages for the examples *)

(** The message of the console responder for a line, and a reply of a
    model-backed responder. *)
Definition said (line : string) : Msg := mkMsg "ユーザー" line user.

Definition answered (text : string) : Msg := mkMsg "アシスタント" text assistant.

(** ** Further observations on runs *)

(** The responders a trace calls, in order. *)
Definition called (tr : list event) : list Agent := map fst (invocations tr).

(** The calls go through [pipeline] again and again, from its start: they
    are the beginning of some number of passes through it. *)
Definition in_turn (pipeline calls : list Agent) : Prop :=
  exists (passes : nat) (later : list Agent),
    concat (repeat pipeline passes) = calls ++ later.

(** The events of a trace that satisfy [p], counted. *)
Definition count (p : event -> bool) (tr : list event) : nat :=
  length (filter p tr).

Definition is_call_of (a : Agent) (e : event) : bool :=
  match e with
  | Call b _ => Agent_eqb a b
  | _ => false
  end.

Definition is_reply_of (a : Agent) (e : event) : bool :=
  match e with
  | Return b (Reply _) => Agent_eqb a b
  | _ => false
  end.

(** The console responder returns a line other than "exit". *)
Definition is_request (e : event) : bool :=
  match e with
  | Return user_agent (Reply m) => negb (content m =? "exit")%string
  | _ => false
  end.

(** Complete exchanges of the two-party loops, each given by the line of
    the console and the reply of the assistant: their outcomes, their
    events when the loop's message is [prior] at the start, and the loop's
    message after them. *)
Definition exchange_outcomes (rounds : list (Msg * Msg)) : list outcome :=
  flat_map (fun '(U, A) => [Reply U; Reply A]) rounds.

Fixpoint exchange_trace (prior : option Msg) (rounds : list (Msg * Msg))
  : list event :=
  match rounds with
  | [] => []
  | (U, A) :: rounds' =>
      [Call user_agent prior; Return user_agent (Reply U);
       Call assistant_agent (Some U); Return assistant_agent (Reply A)]
        ++ exchange_trace (Some A) rounds'
  end.

Fixpoint last_answer (prior : option Msg) (rounds : list (Msg * Msg))
  : option Msg :=
  match rounds with
  | [] => prior
  | (_, A) :: rounds' => last_answer (Some A) rounds'
  end.

(** ** A call that raises, run by run *)

(** A two-party script in which a call raises [e] after complete exchanges,
    at the prompt that follows them or in the assistant's turn for a line
    [U]: the run is the lines before the first prompt, the exchanges, the
    turn up to the call that raises, then the events [after]; it ends as
    [final] and leaves what the environment holds next. *)
Definition two_party_raise (entry : M unit) (e : exn)
    (after : list event) (final : result unit) : Prop :=
  forall (rounds : list (Msg * Msg)) (ext : list outcome),
    Forall (fun '(U, _) => content U <> "exit"%string) rounds ->
    let before :=
      map Print (printed (trace (entry []))) ++ exchange_trace None rounds in
    let prior := last_answer None rounds in
    entry (exchange_outcomes rounds ++ Raise e :: ext)
    = mkRun (before
               ++ [Call user_agent prior; Return user_agent (Raise e)]
               ++ after)
            final ext
    /\ forall U : Msg,
        content U <> "exit"%string ->
        entry (exchange_outcomes rounds ++ Reply U :: Raise e :: ext)
        = mkRun (before
                   ++ [Call user_agent prior; Return user_agent (Reply U);
                       Call assistant_agent (Some U);
                       Return assistant_agent (Raise e)]
                   ++ after)
                final ext.

(** The same for the relay, after complete rounds: at the prompt, in the
    planner's turn for a task [T], or in the critic's turn for a plan
    [P]. *)
Definition relay_raise (entry : M unit) (e : exn)
    (after : list event) (final : result unit) : Prop :=
  forall (rounds : list (Msg * Msg * Msg)) (ext : list outcome),
    Forall (fun '(T, _, _) => content T <> "exit"%string) rounds ->
    let before :=
      map Print (printed (trace (entry []))) ++ relay_trace rounds in
    entry (relay_outcomes rounds ++ Raise e :: ext)
    = mkRun (before
               ++ [Call user_agent None; Return user_agent (Raise e)]
               ++ after)
            final ext
    /\ forall T : Msg,
        content T <> "exit"%string ->
        entry (relay_outcomes rounds ++ Reply T :: Raise e :: ext)
        = mkRun (before ++ relay_request T
                   ++ [Return planner_agent (Raise e)] ++ after)
                final ext
        /\ forall P : Msg,
            entry (relay_outcomes rounds
                     ++ Reply T :: Reply P :: Raise e :: ext)
            = mkRun (before ++ relay_request T ++ relay_plan P
                       ++ [Return critic_agent (Raise e)] ++ after)
                    final ext.

(** ** An interrupt of the operator *)




(** * Facts about the monad *)

Lemma scan_app (tr1 tr2 : list event) :
  forall busy,
    scan busy (tr1 ++ tr2)
    = match scan busy tr1 with
      | Some busy' => scan busy' tr2
      | None => None
      end.
Proof.
  induction tr1 as [|e tr1 IH]; intros busy; simpl; [reflexivity|].
  destruct e, busy; simpl; auto.
  destruct (Agent_eqb a a0); auto.
Qed.

Lemma Agent_eqb_refl (a : Agent) : Agent_eqb a a = true.
Proof. destruct a; reflexivity. Qed.

Section Closure.

Context {A B : Type}.
Variables (m : M A) (k : A -> M B).

Lemma bind_Val env a :
  res (m env) = Val a ->
  bind m k env
  = mkRun (trace (m env) ++ trace (k a (rest (m env))))
          (res (k a (rest (m env))))
          (rest (k a (rest (m env)))).
Proof. intros H. unfold bind. rewrite H. reflexivity. Qed.

Lemma monotone_bind :
  monotone m -> (forall a, monotone (k a)) -> monotone (bind m k).
Proof.
  intros Hm Hk env. unfold bind.
  specialize (Hm env).
  destruct (res (m env)) as [a| | |]; simpl; auto.
  specialize (Hk a (rest (m env))). lia.
Qed.

Lemma consuming_bind :
  consuming m -> (forall a, monotone (k a)) -> consuming (bind m k).
Proof.
  intros Hm Hk env b. unfold bind.
  specialize (Hm env).
  destruct (res (m env)) as [a| | |]; simpl; try discriminate.
  intros _. specialize (Hm a eq_refl).
  specialize (Hk a (rest (m env))). lia.
Qed.

Lemma fuelled_bind :
  fuelled m -> (forall a, fuelled (k a)) -> fuelled (bind m k).
Proof.
  intros Hm Hk env. unfold bind.
  specialize (Hm env).
  destruct (res (m env)) as [a| | |]; simpl.
  - apply Hk.
  - discriminate.
  - discriminate.
  - exfalso. apply Hm. reflexivity.
Qed.

Lemma framed_bind :
  framed m -> (forall a, framed (k a)) -> framed (bind m k).
Proof.
  intros Hm Hk env ext. unfold bind.
  specialize (Hm env ext).
  destruct (res (m env)) as [a|e| |] eqn:Er; simpl; intros Hne.
  - rewrite Hm by discriminate. simpl.
    rewrite (Hk a (rest (m env)) ext Hne). reflexivity.
  - rewrite Hm by discriminate. reflexivity.
  - congruence.
  - rewrite Hm by discriminate. reflexivity.
Qed.

Lemma resumable_bind :
  framed m -> resumable m -> (forall a, resumable (k a)) ->
  resumable (bind m k).
Proof.
  intros Hf Hm Hk env. unfold bind.
  specialize (Hm env).
  destruct (res (m env)) as [a|e| |] eqn:Er; simpl; try discriminate.
  - intros Hp.
    destruct (Hk a (rest (m env)) Hp) as (Hr & b & x & tr0 & Ht & Hx).
    split; [exact Hr|].
    exists b, x, (trace (m env) ++ tr0). split.
    + rewrite Ht. apply app_assoc.
    + intros e ext.
      rewrite (Hf env (Raise e :: ext)) by (rewrite Er; discriminate).
      simpl. rewrite Er, Hx. simpl.
      rewrite app_assoc. reflexivity.
  - intros _.
    destruct (Hm eq_refl) as (Hr & b & x & tr0 & Ht & Hx).
    split; [exact Hr|].
    exists b, x, tr0. split; [exact Ht|].
    intros e ext. rewrite Hx. reflexivity.
Qed.

Lemma sequential_bind :
  sequential m -> (forall a, sequential (k a)) -> sequential (bind m k).
Proof.
  intros Hm Hk env. unfold bind.
  destruct (Hm env) as (busy & Hs & Hp).
  destruct (res (m env)) as [a|e| |] eqn:Er; simpl in *;
    try (exists busy; split; [exact Hs | exact Hp]).
  destruct (Hk a (rest (m env))) as (busy' & Hs' & Hp').
  exists busy'. split; [|exact Hp'].
  rewrite scan_app, Hs.
  destruct busy as [b|]; [|exact Hs'].
  destruct Hp as [_ Hp]. discriminate Hp. discriminate.
Qed.

End Closure.

Section Primitives.

Context {A : Type}.

Lemma monotone_ret (a : A) : monotone (ret a).
Proof. intros env. simpl. lia. Qed.

Lemma fuelled_ret (a : A) : fuelled (ret a).
Proof. intros env. discriminate. Qed.

Lemma framed_ret (a : A) : framed (ret a).
Proof. intros env ext _. reflexivity. Qed.

Lemma resumable_ret (a : A) : resumable (ret a).
Proof. intros env. discriminate. Qed.

Lemma sequential_ret (a : A) : sequential (ret a).
Proof.
  intros env. exists None. simpl. split; [reflexivity|].
  split; [discriminate | congruence].
Qed.

Lemma monotone_print s : monotone (print s).
Proof. intros env. simpl. lia. Qed.

Lemma fuelled_print s : fuelled (print s).
Proof. intros env. discriminate. Qed.

Lemma framed_print s : framed (print s).
Proof. intros env ext _. reflexivity. Qed.

Lemma resumable_print s : resumable (print s).
Proof. intros env. discriminate. Qed.

Lemma sequential_print s : sequential (print s).
Proof.
  intros env. exists None. simpl. split; [reflexivity|].
  split; [discriminate | congruence].
Qed.

Lemma monotone_await a x : monotone (await a x).
Proof. intros [|[m|e] env]; simpl; lia. Qed.

Lemma consuming_await a x : consuming (await a x).
Proof. intros [|[m|e] env] r; simpl; try discriminate. lia. Qed.

Lemma fuelled_await a x : fuelled (await a x).
Proof. intros [|[m|e] env]; discriminate. Qed.

Lemma framed_await a x : framed (await a x).
Proof.
  intros [|[m|e] env] ext H; simpl in *; [congruence | reflexivity ..].
Qed.

Lemma resumable_await a x : resumable (await a x).
Proof.
  intros [|[m|e] env]; simpl; try discriminate.
  intros _. split; [reflexivity|].
  exists a, x, []. split; reflexivity.
Qed.

Lemma sequential_await a x : sequential (await a x).
Proof.
  intros [|[m|e] env]; simpl.
  - exists (Some a). split; [reflexivity|].
    split; [discriminate | reflexivity].
  - exists None. rewrite Agent_eqb_refl. split; [reflexivity|].
    split; [discriminate | congruence].
  - exists None. rewrite Agent_eqb_refl. split; [reflexivity|].
    split; [discriminate | congruence].
Qed.

End Primitives.

Section Loops.

Context {St : Type}.
Variable body : St -> M (ctl St).

Lemma monotone_loop :
  (forall s, monotone (body s)) -> forall n s, monotone (loop n body s).
Proof.
  intros Hb. induction n as [|n IH]; intros s; simpl.
  - intros env. simpl. lia.
  - apply monotone_bind; [apply Hb|].
    intros [s'|]; [apply IH | apply monotone_ret].
Qed.

Lemma framed_loop :
  (forall s, framed (body s)) -> forall n s, framed (loop n body s).
Proof.
  intros Hb. induction n as [|n IH]; intros s; simpl.
  - intros env ext _. reflexivity.
  - apply framed_bind; [apply Hb|].
    intros [s'|]; [apply IH | apply framed_ret].
Qed.

Lemma resumable_loop :
  (forall s, framed (body s)) -> (forall s, resumable (body s)) ->
  forall n s, resumable (loop n body s).
Proof.
  intros Hf Hb. induction n as [|n IH]; intros s; simpl.
  - intros env. discriminate.
  - apply resumable_bind; [apply Hf | apply Hb |].
    intros [s'|]; [apply IH | apply resumable_ret].
Qed.

Lemma sequential_loop :
  (forall s, sequential (body s)) -> forall n s, sequential (loop n body s).
Proof.
  intros Hb. induction n as [|n IH]; intros s; simpl.
  - intros env. exists None. simpl. split; [reflexivity|].
    split; [discriminate | congruence].
  - apply sequential_bind; [apply Hb|].
    intros [s'|]; [apply IH | apply sequential_ret].
Qed.

Hypothesis body_consuming : forall s, consuming (body s).

(** Any bound above the length of the environment gives the same run. *)
Lemma loop_fuel :
  forall n n' s env,
    length env < n -> length env < n' ->
    loop n body s env = loop n' body s env.
Proof.
  induction n as [|n IH]; intros n' s env Hn Hn'; [lia|].
  destruct n' as [|n']; [lia|].
  simpl. unfold bind.
  pose proof (body_consuming s env) as Hc.
  destruct (res (body s env)) as [[s'|]| | |]; try reflexivity.
  specialize (Hc _ eq_refl).
  rewrite (IH n' s' (rest (body s env))) by lia.
  reflexivity.
Qed.

(** [while True:] runs its body and, unless it breaks, itself again. *)
Lemma while_true_unfold s env :
  while_true body s env
  = (c <- body s ;;
     match c with
     | Continue s' => while_true body s'
     | Break => ret tt
     end) env.
Proof.
  unfold while_true. simpl. unfold bind.
  pose proof (body_consuming s env) as Hc.
  destruct (res (body s env)) as [[s'|]| | |]; try reflexivity.
  specialize (Hc _ eq_refl).
  rewrite (loop_fuel (length env) (S (length (rest (body s env)))))
    by lia.
  reflexivity.
Qed.

Lemma fuelled_while_true :
  (forall s, fuelled (body s)) -> forall s, fuelled (while_true body s).
Proof.
  intros Hb s env. remember (length env) as n eqn:En.
  revert s env En.
  induction n as [n IH] using lt_wf_ind. intros s env En.
  rewrite while_true_unfold. unfold bind.
  pose proof (body_consuming s env) as Hc.
  pose proof (Hb s env) as Hf.
  destruct (res (body s env)) as [[s'|]| | |]; simpl;
    try discriminate; [|congruence].
  specialize (Hc _ eq_refl).
  apply (IH (length (rest (body s env)))); [lia | reflexivity].
Qed.

Lemma monotone_while_true :
  (forall s, monotone (body s)) -> forall s, monotone (while_true body s).
Proof. intros Hb s env. apply monotone_loop, Hb. Qed.

Lemma sequential_while_true :
  (forall s, sequential (body s)) ->
  forall s, sequential (while_true body s).
Proof. intros Hb s env. apply sequential_loop, Hb. Qed.

Lemma framed_while_true :
  (forall s, framed (body s)) -> forall s, framed (while_true body s).
Proof.
  intros Hb s env ext Hne. unfold while_true in *.
  assert (E : loop (S (length (env ++ ext))) body s env
              = loop (S (length env)) body s env).
  { apply loop_fuel; rewrite ?length_app; lia. }
  rewrite <- E in *.
  apply framed_loop; assumption.
Qed.

Lemma resumable_while_true :
  (forall s, framed (body s)) -> (forall s, resumable (body s)) ->
  forall s, resumable (while_true body s).
Proof.
  intros Hf Hb s env Hp. unfold while_true in *.
  destruct (resumable_loop Hf Hb (S (length env)) s env Hp)
    as (Hr & a & x & tr0 & Ht & Hx).
  split; [exact Hr|].
  exists a, x, tr0. split; [exact Ht|].
  intros e ext.
  assert (E : loop (S (length (env ++ Raise e :: ext))) body s env
              = loop (S (length env)) body s env).
  { apply loop_fuel; rewrite ?length_app; simpl; lia. }
  assert (Hp' : res (loop (S (length (env ++ Raise e :: ext))) body s env)
                = Pending) by (rewrite E; exact Hp).
  destruct (resumable_loop Hf Hb _ s env Hp')
    as (_ & a' & x' & tr0' & Ht' & Hx').
  rewrite Hx', E.
  rewrite E, Ht in Ht'.
  apply app_inj_tail in Ht'. destruct Ht' as [_ Ht'].
  inversion Ht'. reflexivity.
Qed.

End Loops.

(** * Calls are points of suspension *)

Lemma call_in_app (tr1 tr2 : list event) a x q :
  forall p,
    tr1 ++ tr2 = p ++ Call a x :: q ->
    (exists q1, tr1 = p ++ Call a x :: q1 /\ q = q1 ++ tr2)
    \/ (exists p2, p = tr1 ++ p2 /\ tr2 = p2 ++ Call a x :: q).
Proof.
  induction tr1 as [|e tr1 IH]; intros p H; simpl in H.
  - right. exists p. split; [reflexivity | exact H].
  - destruct p as [|e' p]; simpl in H; inversion H; subst.
    + left. exists tr1. split; reflexivity.
    + destruct (IH p H2) as [(q1 & -> & ->)|(p2 & -> & ->)].
      * left. exists q1. split; reflexivity.
      * right. exists p2. split; reflexivity.
Qed.

Section Suspension.

Context {A B : Type}.
Variables (m : M A) (k : A -> M B).

Lemma local_bind :
  framed m -> local m -> (forall a, local (k a)) -> local (bind m k).
Proof.
  intros Hf Hm Hk env. unfold bind.
  destruct (Hm env) as (u1 & E1 & R1).
  destruct (res (m env)) as [a|e| |] eqn:Er; simpl;
    try (exists u1; rewrite R1; simpl; split; [exact E1 | reflexivity]).
  destruct (Hk a (rest (m env))) as (u2 & E2 & R2).
  exists (u1 ++ u2). split.
  - rewrite <- app_assoc, <- E2. exact E1.
  - rewrite (Hf u1 u2) by (rewrite R1; discriminate).
    rewrite R1. simpl. rewrite R2. reflexivity.
Qed.

Lemma suspending_bind :
  framed m -> local m -> suspending m -> (forall a, suspending (k a)) ->
  suspending (bind m k).
Proof.
  intros Hf Hl Hm Hk env p a x q. unfold bind.
  assert (Hin : forall q1,
             trace (m env) = p ++ Call a x :: q1 ->
             exists env0 ext,
               env = env0 ++ ext
               /\ (let r := m env0 in
                   match res r with
                   | Val v => let r' := k v (rest r) in
                              mkRun (trace r ++ trace r') (res r') (rest r')
                   | Exn e => mkRun (trace r) (Exn e) (rest r)
                   | Pending => mkRun (trace r) Pending (rest r)
                   | OutOfFuel => mkRun (trace r) OutOfFuel (rest r)
                   end) = mkRun (p ++ [Call a x]) Pending []).
  { intros q1 Ht. destruct (Hm env p a x q1 Ht) as (env0 & ext & E & R).
    exists env0, ext. split; [exact E|]. rewrite R. reflexivity. }
  destruct (res (m env)) as [v|e| |] eqn:Er; simpl;
    try (intros Ht; apply (Hin q Ht)).
  intros Ht. apply call_in_app in Ht.
  destruct Ht as [(q1 & Ht & _)|(p2 & -> & Ht)]; [apply (Hin q1 Ht)|].
  destruct (Hk v (rest (m env)) p2 a x q Ht) as (r0 & ext & E & R).
  destruct (Hl env) as (u1 & E1 & R1).
  exists (u1 ++ r0), ext. split.
  - rewrite <- app_assoc, <- E. exact E1.
  - rewrite (Hf u1 r0) by (rewrite R1; simpl; rewrite Er; discriminate).
    rewrite R1. simpl. rewrite Er, R. simpl.
    rewrite app_assoc. reflexivity.
Qed.

End Suspension.

Section Suspension_primitives.

Context {A : Type}.

Lemma local_ret (a : A) : local (ret a).
Proof. intros env. exists []. split; reflexivity. Qed.

Lemma suspending_ret (a : A) : suspending (ret a).
Proof. intros env [|e p] b x q H; simpl in H; discriminate H. Qed.

Lemma local_print s : local (print s).
Proof. intros env. exists []. split; reflexivity. Qed.

Lemma suspending_print s : suspending (print s).
Proof.
  intros env [|e [|e' p]] b x q H; simpl in H; inversion H.
Qed.

Lemma local_await a x : local (await a x).
Proof.
  intros [|[m|e] env]; simpl.
  - exists []. split; reflexivity.
  - exists [Reply m]. split; reflexivity.
  - exists [Raise e]. split; reflexivity.
Qed.

Lemma suspending_await a x : suspending (await a x).
Proof.
  intros env [|e [|e' [|e'' p]]] b y q H;
    destruct env as [|[m|e0] env]; simpl in H; inversion H; subst.
  - exists [], []. split; reflexivity.
  - exists [], (Reply m :: env). split; reflexivity.
  - exists [], (Raise e0 :: env). split; reflexivity.
Qed.

End Suspension_primitives.

Section Suspension_loops.

Context {St : Type}.
Variable body : St -> M (ctl St).
Hypothesis body_framed : forall s, framed (body s).
Hypothesis body_local : forall s, local (body s).

Lemma local_loop : forall n s, local (loop n body s).
Proof.
  induction n as [|n IH]; intros s; simpl.
  - intros env. exists []. split; reflexivity.
  - apply local_bind; [apply body_framed | apply body_local |].
    intros [s'|]; [apply IH | apply local_ret].
Qed.

Lemma suspending_loop :
  (forall s, suspending (body s)) -> forall n s, suspending (loop n body s).
Proof.
  intros Hb. induction n as [|n IH]; intros s; simpl.
  - intros env [|e p] b x q H; simpl in H; discriminate H.
  - apply suspending_bind;
      [apply body_framed | apply body_local | apply Hb |].
    intros [s'|]; [apply IH | apply suspending_ret].
Qed.

Hypothesis body_consuming : forall s, consuming (body s).

Lemma local_while_true s : local (while_true body s).
Proof.
  intros env. unfold while_true.
  destruct (local_loop (S (length env)) s env) as (used & E & R).
  exists used. split; [exact E|].
  pose proof (f_equal (@length _) E) as L. rewrite length_app in L.
  rewrite <- R. apply loop_fuel; [exact body_consuming | lia | lia].
Qed.

Lemma suspending_while_true :
  (forall s, suspending (body s)) -> forall s, suspending (while_true body s).
Proof.
  intros Hb s env p a x q H. unfold while_true in *.
  destruct (suspending_loop Hb _ s env p a x q H) as (env0 & ext & E & R).
  exists env0, ext. split; [exact E|].
  pose proof (f_equal (@length _) E) as L. rewrite length_app in L.
  rewrite <- R. apply loop_fuel; [exact body_consuming | lia | lia].
Qed.

End Suspension_loops.

(** * The scripts are well behaved *)

Create HintDb script.

#[local] Hint Resolve
  monotone_ret monotone_print monotone_await
  consuming_await
  fuelled_ret fuelled_print fuelled_await
  framed_ret framed_print framed_await
  resumable_ret resumable_print resumable_await
  sequential_ret sequential_print sequential_await
  local_ret local_print local_await
  suspending_ret suspending_print suspending_await : script.

(** Follows the shape of a script: one closure lemma for each [;;], a case
    for each [if]. *)
Ltac script :=
  cbv zeta;
  repeat match goal with
    | |- forall _, _ => intro
    | |- monotone (bind _ _) => apply monotone_bind
    | |- consuming (bind _ _) => apply consuming_bind
    | |- fuelled (bind _ _) => apply fuelled_bind
    | |- framed (bind _ _) => apply framed_bind
    | |- resumable (bind _ _) => apply resumable_bind
    | |- sequential (bind _ _) => apply sequential_bind
    | |- local (bind _ _) => apply local_bind
    | |- suspending (bind _ _) => apply suspending_bind
    | |- _ (if ?c then _ else _) => destruct c
    | |- monotone (while_true _ _) => apply monotone_while_true
    | |- fuelled (while_true _ _) => apply fuelled_while_true
    | |- framed (while_true _ _) => apply framed_while_true
    | |- resumable (while_true _ _) => apply resumable_while_true
    | |- sequential (while_true _ _) => apply sequential_while_true
    | |- local (while_true _ _) => apply local_while_true
    | |- suspending (while_true _ _) => apply suspending_while_true
    | |- _ => solve [auto with script]
    end.

#[local] Hint Resolve
  behaved_monotone behaved_fuelled behaved_framed behaved_resumable
  behaved_sequential behaved_local behaved_suspending : script.

Lemma sample2_body_consuming s : consuming (sample2_with_llm.while_body s).
Proof. unfold sample2_with_llm.while_body. script. Qed.

Lemma sample2_body_behaved s : behaved (sample2_with_llm.while_body s).
Proof. unfold sample2_with_llm.while_body. split; script. Qed.

Lemma sample3_body_consuming s : consuming (sample3_with_tool.while_body s).
Proof. exact (sample2_body_consuming s). Qed.

Lemma sample3_body_behaved s : behaved (sample3_with_tool.while_body s).
Proof. exact (sample2_body_behaved s). Qed.

Lemma main_py_body_consuming s : consuming (main_py.while_body s).
Proof. exact (sample2_body_consuming s). Qed.

Lemma main_py_body_behaved s : behaved (main_py.while_body s).
Proof. exact (sample2_body_behaved s). Qed.

Lemma sample4_body_consuming s : consuming (sample4_multi_agent.while_body s).
Proof. unfold sample4_multi_agent.while_body. script. Qed.

Lemma sample4_body_behaved s : behaved (sample4_multi_agent.while_body s).
Proof. unfold sample4_multi_agent.while_body. split; script. Qed.

#[local] Hint Resolve
  sample2_body_consuming sample2_body_behaved
  sample3_body_consuming sample3_body_behaved
  main_py_body_consuming main_py_body_behaved
  sample4_body_consuming sample4_body_behaved : script.

Lemma sample2_loop_behaved s :
  behaved (while_true sample2_with_llm.while_body s).
Proof. split; script. Qed.

Lemma sample3_loop_behaved s :
  behaved (while_true sample3_with_tool.while_body s).
Proof. split; script. Qed.

Lemma sample4_loop_behaved s :
  behaved (while_true sample4_multi_agent.while_body s).
Proof. split; script. Qed.

Lemma main_py_loop_behaved s : behaved (while_true main_py.while_body s).
Proof. split; script. Qed.

(** * One round of each loop *)

Lemma sample2_round prior m env :
  sample2_with_llm.while_body prior (Reply m :: env)
  = if (content m =? "exit")%string then
      mkRun [Call user_agent prior; Return user_agent (Reply m);
             Print "対話を終了します。"]
            (Val Break) env
    else
      match env with
      | [] =>
          mkRun [Call user_agent prior; Return user_agent (Reply m);
                 Call assistant_agent (Some m)]
                Pending []
      | Reply a :: env' =>
          mkRun [Call user_agent prior; Return user_agent (Reply m);
                 Call assistant_agent (Some m);
                 Return assistant_agent (Reply a)]
                (Val (Continue (Some a))) env'
      | Raise e :: env' =>
          mkRun [Call user_agent prior; Return user_agent (Reply m);
                 Call assistant_agent (Some m);
                 Return assistant_agent (Raise e)]
                (Exn e) env'
      end.
Proof.
  unfold sample2_with_llm.while_body, bind. simpl.
  destruct (content m =? "exit")%string; [reflexivity|].
  destruct env as [|[a|e] env']; reflexivity.
Qed.

Lemma sample4_round s T env :
  sample4_multi_agent.while_body s (Reply T :: env)
  = if (content T =? "exit")%string then
      mkRun [Call user_agent None; Return user_agent (Reply T);
             Print "対話を終了します。"]
            (Val Break) env
    else
      match env with
      | [] => mkRun (relay_request T) Pending []
      | Raise e :: env' =>
          mkRun (relay_request T ++ [Return planner_agent (Raise e)])
                (Exn e) env'
      | [Reply P] => mkRun (relay_request T ++ relay_plan P) Pending []
      | Reply P :: Raise e :: env' =>
          mkRun (relay_request T ++ relay_plan P
                   ++ [Return critic_agent (Raise e)])
                (Exn e) env'
      | Reply P :: Reply C :: env' =>
          mkRun (relay_round T P C) (Val (Continue tt)) env'
      end.
Proof.
  unfold sample4_multi_agent.while_body.
  rewrite (bind_Val _ _ _ T) by reflexivity.
  cbn [await trace res rest].
  destruct (content T =? "exit")%string; [reflexivity|].
  destruct env as [|[P|e] [|[C|e'] env']]; vm_compute; reflexivity.
Qed.

(** * The loops, case by case *)

Lemma sample2_loop prior env :
  while_true sample2_with_llm.while_body prior env
  = match env with
    | [] => mkRun [Call user_agent prior] Pending []
    | Raise e :: env' =>
        mkRun [Call user_agent prior; Return user_agent (Raise e)]
              (Exn e) env'
    | Reply m :: env' =>
        if (content m =? "exit")%string then
          mkRun [Call user_agent prior; Return user_agent (Reply m);
                 Print "対話を終了します。"]
                (Val tt) env'
        else
          match env' with
          | [] =>
              mkRun [Call user_agent prior; Return user_agent (Reply m);
                     Call assistant_agent (Some m)]
                    Pending []
          | Raise e :: env'' =>
              mkRun [Call user_agent prior; Return user_agent (Reply m);
                     Call assistant_agent (Some m);
                     Return assistant_agent (Raise e)]
                    (Exn e) env''
          | Reply a :: env'' =>
              let r := while_true sample2_with_llm.while_body (Some a) env'' in
              mkRun ([Call user_agent prior; Return user_agent (Reply m);
                      Call assistant_agent (Some m);
                      Return assistant_agent (Reply a)] ++ trace r)
                    (res r) (rest r)
          end
    end.
Proof.
  rewrite while_true_unfold by exact sample2_body_consuming.
  destruct env as [|[m|e] env']; try reflexivity.
  unfold bind. rewrite sample2_round.
  destruct (content m =? "exit")%string; [reflexivity|].
  destruct env' as [|[a|e] env'']; reflexivity.
Qed.

Lemma sample4_loop s env :
  while_true sample4_multi_agent.while_body s env
  = match env with
    | [] => mkRun [Call user_agent None] Pending []
    | Raise e :: env' =>
        mkRun [Call user_agent None; Return user_agent (Raise e)]
              (Exn e) env'
    | Reply T :: env' =>
        if (content T =? "exit")%string then
          mkRun [Call user_agent None; Return user_agent (Reply T);
                 Print "対話を終了します。"]
                (Val tt) env'
        else
          match env' with
          | [] => mkRun (relay_request T) Pending []
          | Raise e :: env'' =>
              mkRun (relay_request T ++ [Return planner_agent (Raise e)])
                    (Exn e) env''
          | [Reply P] => mkRun (relay_request T ++ relay_plan P) Pending []
          | Reply P :: Raise e :: env'' =>
              mkRun (relay_request T ++ relay_plan P
                       ++ [Return critic_agent (Raise e)])
                    (Exn e) env''
          | Reply P :: Reply C :: env'' =>
              let r := while_true sample4_multi_agent.while_body tt env'' in
              mkRun (relay_round T P C ++ trace r) (res r) (rest r)
          end
    end.
Proof.
  rewrite while_true_unfold by exact sample4_body_consuming.
  destruct env as [|[T|e] env']; try reflexivity.
  unfold bind. rewrite sample4_round.
  destruct (content T =? "exit")%string; [reflexivity|].
  destruct env' as [|[P|e] [|[C|e'] env'']]; reflexivity.
Qed.

Lemma invocations_app (tr1 tr2 : list event) :
  invocations (tr1 ++ tr2) = invocations tr1 ++ invocations tr2.
Proof.
  induction tr1 as [|[s|a x|a o] tr1 IH]; simpl; congruence.
Qed.

Lemma bind_trace {A B} (m : M A) (k : A -> M B) env :
  exists tl, trace (bind m k env) = trace (m env) ++ tl.
Proof.
  unfold bind. destruct (res (m env)); simpl;
    try (exists []; rewrite app_nil_r; reflexivity).
  eexists. reflexivity.
Qed.

(** * The termination check *)

Lemma exact_exit_check_intro {St} (body : St -> M (ctl St)) prior next :
  (forall s, consuming (body s)) ->
  (forall s m env,
      content m = "exit"%string ->
      body s (Reply m :: env)
      = mkRun [Call user_agent (prior s); Return user_agent (Reply m);
               Print "対話を終了します。"]
              (Val Break) env) ->
  (forall s m env,
      content m <> "exit"%string ->
      res (body s (Reply m :: env)) <> Val Break /\
      exists calls,
        invocations (trace (body s (Reply m :: env)))
        = (user_agent, prior s) :: (next, Some m) :: calls) ->
  exact_exit_check body prior next.
Proof.
  intros Hc Hexit Hfwd s m env.
  destruct (String.eqb_spec (content m) "exit") as [E|E].
  - repeat split; intros; try congruence.
    + rewrite Hexit by assumption. reflexivity.
    + rewrite while_true_unfold by exact Hc.
      unfold bind. rewrite Hexit by assumption. reflexivity.
  - destruct (Hfwd s m env E) as [Hnb (calls & Hi)].
    repeat split; intros; try congruence.
    rewrite while_true_unfold by exact Hc.
    destruct (bind_trace (body s)
                (fun c => match c with
                          | Continue s' => while_true body s'
                          | Break => ret tt
                          end) (Reply m :: env)) as [tl Ht].
    rewrite Ht, invocations_app, Hi. simpl. eexists. reflexivity.
Qed.

Lemma sample2_exit_check :
  exact_exit_check sample2_with_llm.while_body (fun msg => msg)
    assistant_agent.
Proof.
  apply exact_exit_check_intro.
  - exact sample2_body_consuming.
  - intros s m env E. rewrite sample2_round.
    apply String.eqb_eq in E. rewrite E. reflexivity.
  - intros s m env E. rewrite sample2_round.
    apply String.eqb_neq in E. rewrite E.
    destruct env as [|[a|e] env']; simpl;
      (split; [discriminate | eexists; reflexivity]).
Qed.

Lemma sample4_exit_check :
  exact_exit_check sample4_multi_agent.while_body (fun _ => None)
    planner_agent.
Proof.
  apply exact_exit_check_intro.
  - exact sample4_body_consuming.
  - intros s m env E. rewrite sample4_round.
    apply String.eqb_eq in E. rewrite E. reflexivity.
  - intros s m env E. rewrite sample4_round.
    apply String.eqb_neq in E. rewrite E.
    destruct env as [|[P|e] [|[C|e'] env']]; simpl;
      (split; [discriminate | eexists; reflexivity]).
Qed.

(** C1.  In each of the four loops, for every message [m] that the console
    responder returns, the round breaks out of the loop if and only if the
    content of [m] is the string "exit": the loop then prints its last line
    and returns, leaving the remaining outcomes untouched, and otherwise the
    next responder is called with [m].  "Exit" and " exit " are not
    "exit". *)
Theorem exit_is_exact_match :
  exact_exit_check sample2_with_llm.while_body (fun msg => msg)
    assistant_agent
  /\ exact_exit_check main_py.while_body (fun msg => msg) assistant_agent
  /\ exact_exit_check sample3_with_tool.while_body (fun msg => msg)
       assistant_agent
  /\ exact_exit_check sample4_multi_agent.while_body (fun _ => None)
       planner_agent
  /\ (forall prior n r env,
         res (sample2_with_llm.while_body prior
                (Reply (mkMsg n "Exit" r) :: env)) <> Val Break
         /\ res (sample2_with_llm.while_body prior
                   (Reply (mkMsg n " exit " r) :: env)) <> Val Break
         /\ res (main_py.while_body prior
                   (Reply (mkMsg n "Exit" r) :: env)) <> Val Break
         /\ res (main_py.while_body prior
                   (Reply (mkMsg n " exit " r) :: env)) <> Val Break).
Proof.
  split; [exact sample2_exit_check|].
  split; [exact sample2_exit_check|].
  split; [exact sample2_exit_check|].
  split; [exact sample4_exit_check|].
  intros prior n r env.
  repeat split; intros H;
    apply (proj1 (sample2_exit_check prior _ env)) in H; discriminate H.
Qed.

(** * The echo responder of sample1_basic_dialogue.py *)

(** C2.  For every input message [x], [reply] returns a message whose
    content is the response text the responder was constructed with.  The
    returned message is the same for every input and every environment; the
    input only shows in the line that is printed, and no responder of the
    framework is consulted. *)
Theorem reply_content_is_response_text :
  forall (n text : string) (x : Msg) (env : list outcome),
    let self := sample1_basic_dialogue.__init__ n text in
    exists msg : Msg,
      res (sample1_basic_dialogue.reply self x env) = Val msg
      /\ content msg = text
      /\ (forall (y : Msg) (env' : list outcome),
             res (sample1_basic_dialogue.reply self y env') = Val msg)
      /\ trace (sample1_basic_dialogue.reply self x env)
         = [Print ("[" ++ n ++ "]がメッセージを受信: '"
                       ++ content x ++ "'")%string]
      /\ rest (sample1_basic_dialogue.reply self x env) = env.
Proof.
  intros n text x env self.
  exists (mkMsg n text assistant).
  repeat split.
Qed.

(** The whole of sample1_basic_dialogue.py: Alice answers the system's
    message, Bob answers Alice's answer, each with the text it was
    constructed with; no responder of the framework is called. *)
Lemma sample1_dialogue env :
  sample1_basic_dialogue.__main__ env
  = mkRun
      (map Print
         ["2体のエージェントを作成します...";
          "エージェント 'アリス' と 'ボブ' を作成しました。" ++ nl;
          "--- 対話を開始します ---";
          "[システム]から送信: 'アリスさん、ボブさんに挨拶してください。'";
          "[アリス]がメッセージを受信: 'アリスさん、ボブさんに挨拶してください。'";
          "[アリス]から送信: 'こんにちは、ボブ！私はアリスです。'";
          "[ボブ]がメッセージを受信: 'こんにちは、ボブ！私はアリスです。'";
          "[ボブ]から送信: 'やあ、アリス！元気かい？'";
          nl ++ "--- 対話が終了しました ---"]%string)
      (Val tt) env.
Proof. reflexivity. Qed.

(** C10.  For every input message [x], the message that [reply] returns
    has the role [assistant] and carries the name the responder was
    constructed with, whoever sent [x]. *)
Theorem reply_role_and_name :
  forall (n text : string) (x : Msg) (env : list outcome),
    let self := sample1_basic_dialogue.__init__ n text in
    exists msg : Msg,
      res (sample1_basic_dialogue.reply self x env) = Val msg
      /\ role msg = assistant
      /\ message.name msg = n
      /\ (message.name x <> n -> message.name msg <> message.name x).
Proof.
  intros n text x env self.
  exists (mkMsg n text assistant).
  repeat split. simpl. congruence.
Qed.

(** * Each script in terms of its loop *)

Lemma print_all_run {B} (lines : list string) (k : M B) env :
  print_all lines k env
  = mkRun (map Print lines ++ trace (k env)) (res (k env)) (rest (k env)).
Proof.
  induction lines as [|s lines IH]; simpl.
  - destruct (k env); reflexivity.
  - unfold bind. simpl. rewrite IH. reflexivity.
Qed.

(** The lines a script prints before its first call. *)
Ltac banner f :=
  let b := eval vm_compute in (printed (trace (f (@nil outcome)))) in
  exists b.

Lemma sample2_main_loop :
  exists banner,
    sample2_with_llm.main
    = print_all banner (while_true sample2_with_llm.while_body None).
Proof. banner sample2_with_llm.main. reflexivity. Qed.

Lemma sample3_main_loop :
  exists banner,
    sample3_with_tool.main
    = print_all banner (while_true sample3_with_tool.while_body None).
Proof. banner sample3_with_tool.main. reflexivity. Qed.

Lemma sample4_main_loop :
  exists banner,
    sample4_multi_agent.main
    = print_all banner (while_true sample4_multi_agent.while_body tt).
Proof. banner sample4_multi_agent.main. reflexivity. Qed.

Lemma main_py_main_loop :
  exists banner,
    main_py.main = print_all banner (while_true main_py.while_body None).
Proof. banner main_py.main. reflexivity. Qed.

Ltac entry Hb r :=
  unfold try_except; rewrite Hb, !print_all_run;
  cbn [trace res rest]; fold r;
  destruct (res r) as [[]|[|?]| |];
  cbn [trace res rest print]; rewrite <- ?app_assoc; reflexivity.

Lemma sample2_entry :
  runs_loop sample2_with_llm.__main__
    (while_true sample2_with_llm.while_body None) true.
Proof.
  destruct sample2_main_loop as [b Hb]. exists b. intros env r.
  unfold sample2_with_llm.__main__. entry Hb r.
Qed.

Lemma sample3_entry :
  runs_loop sample3_with_tool.__main__
    (while_true sample3_with_tool.while_body None) true.
Proof.
  destruct sample3_main_loop as [b Hb]. exists b. intros env r.
  unfold sample3_with_tool.__main__. entry Hb r.
Qed.

Lemma sample4_entry :
  runs_loop sample4_multi_agent.__main__
    (while_true sample4_multi_agent.while_body tt) true.
Proof.
  destruct sample4_main_loop as [b Hb]. exists b. intros env r.
  unfold sample4_multi_agent.__main__. entry Hb r.
Qed.

(** The statements of [main.py] before its [__main__] block print seven
    lines. *)
Lemma main_py_module_level :
  exists banner,
    main_py.__main__
    = print_all banner
        (try_except main_py.main
           (fun e =>
              match e with
              | KeyboardInterrupt =>
                  Some (print (nl ++ "プログラムが中断されました。")%string)
              | Exception _ => None
              end)).
Proof.
  let b := eval vm_compute in
    (firstn 7 (printed (trace (main_py.__main__ (@nil outcome))))) in
  exists b.
  reflexivity.
Qed.

(** [main.py] has no handler for [Exception]. *)
Lemma main_py_entry :
  runs_loop main_py.__main__ (while_true main_py.while_body None) false.
Proof.
  destruct main_py_module_level as [b1 Hb1].
  destruct main_py_main_loop as [b2 Hb2].
  exists (b1 ++ b2). intros env r.
  rewrite Hb1, print_all_run. unfold try_except.
  rewrite Hb2, !print_all_run. cbn [trace res rest]. fold r.
  rewrite map_app.
  destruct (res r) as [[]|[|?]| |];
    cbn [trace res rest print]; rewrite <- ?app_assoc; reflexivity.
Qed.

(** * The first prompt, and "exit" as the first line *)

Lemma invocations_prints (lines : list string) :
  invocations (map Print lines) = [].
Proof. induction lines; simpl; auto. Qed.

(** A loop whose body starts by awaiting the console responder starts by
    calling it. *)
Lemma while_true_prompts {St} (body : St -> M (ctl St)) prior :
  (forall s, consuming (body s)) ->
  (forall s env, exists tl, trace (body s env) = Call user_agent (prior s) :: tl) ->
  forall s env,
    exists tl, trace (while_true body s env) = Call user_agent (prior s) :: tl.
Proof.
  intros Hc Hb s env.
  rewrite while_true_unfold by exact Hc.
  destruct (bind_trace (body s)
              (fun c => match c with
                        | Continue s' => while_true body s'
                        | Break => ret tt
                        end) env) as [tl Ht].
  destruct (Hb s env) as [tl' Ht'].
  rewrite Ht, Ht'. simpl. eexists. reflexivity.
Qed.

Lemma await_prompts {B} a x (k : Msg -> M B) env :
  exists tl, trace (bind (await a x) k env) = Call a x :: tl.
Proof.
  destruct (bind_trace (await a x) k env) as [tl Ht]. rewrite Ht.
  destruct env as [|[m|e] env]; simpl; eexists; reflexivity.
Qed.

Lemma sample2_prompts s env :
  exists tl,
    trace (while_true sample2_with_llm.while_body s env)
    = Call user_agent s :: tl.
Proof.
  apply (while_true_prompts sample2_with_llm.while_body (fun msg => msg)).
  - exact sample2_body_consuming.
  - intros; apply await_prompts.
Qed.

Lemma sample4_prompts s env :
  exists tl,
    trace (while_true sample4_multi_agent.while_body s env)
    = Call user_agent None :: tl.
Proof.
  apply (while_true_prompts sample4_multi_agent.while_body (fun _ => None)).
  - exact sample4_body_consuming.
  - intros; apply await_prompts.
Qed.

Lemma runs_loop_first_prompt (entry dialogue : M unit) c :
  runs_loop entry dialogue c ->
  (forall env, exists tl, trace (dialogue env) = Call user_agent None :: tl) ->
  first_prompt_has_no_prior entry.
Proof.
  intros [b Hb] Hd env. exists b.
  destruct (Hd env) as [tl Ht].
  rewrite Hb.
  destruct (res (dialogue env)) as [[]|[|d]| |]; [| |destruct c| |];
    simpl; rewrite Ht; simpl; eexists; reflexivity.
Qed.

(** C6.  In each of the four scripts with a loop, the first call is the
    console responder's and it is made with no prior message; everything
    before it is printing. *)
Theorem first_prompt_without_prior_message :
  first_prompt_has_no_prior sample2_with_llm.__main__
  /\ first_prompt_has_no_prior sample4_multi_agent.__main__
  /\ first_prompt_has_no_prior main_py.__main__
  /\ first_prompt_has_no_prior sample3_with_tool.__main__.
Proof.
  repeat split.
  - exact (runs_loop_first_prompt _ _ _ sample2_entry (sample2_prompts None)).
  - exact (runs_loop_first_prompt _ _ _ sample4_entry (sample4_prompts tt)).
  - exact (runs_loop_first_prompt _ _ _ main_py_entry (sample2_prompts None)).
  - exact (runs_loop_first_prompt _ _ _ sample3_entry (sample2_prompts None)).
Qed.

Lemma runs_loop_exit_first {St} (entry : M unit) (body : St -> M (ctl St))
    prior next s0 c :
  runs_loop entry (while_true body s0) c ->
  exact_exit_check body prior next ->
  prior s0 = None ->
  exits_on_first_line entry.
Proof.
  intros [b Hb] Hx Hp m env E. exists b.
  destruct (Hx s0 m env) as (_ & Hexit & _).
  rewrite Hb, (Hexit E), Hp. simpl. split; [reflexivity|].
  rewrite invocations_app, invocations_prints. reflexivity.
Qed.

(** C3.  When the first line the console responder returns is "exit", each
    script prints the line that announces the end and returns; its only
    call of a responder is that first call of the console responder, and
    the remaining outcomes are not consumed. *)
Theorem exit_as_first_line :
  exits_on_first_line sample2_with_llm.__main__
  /\ exits_on_first_line sample4_multi_agent.__main__
  /\ exits_on_first_line main_py.__main__
  /\ exits_on_first_line sample3_with_tool.__main__.
Proof.
  repeat split.
  - exact (runs_loop_exit_first _ _ _ _ _ _
             sample2_entry sample2_exit_check eq_refl).
  - exact (runs_loop_exit_first _ _ _ _ _ _
             sample4_entry sample4_exit_check eq_refl).
  - exact (runs_loop_exit_first _ _ _ _ _ _
             main_py_entry sample2_exit_check eq_refl).
  - exact (runs_loop_exit_first _ _ _ _ _ _
             sample3_entry sample2_exit_check eq_refl).
Qed.

(** * Hand-over of messages *)

Lemma run_eta {A} (r : run A) : mkRun (trace r) (res r) (rest r) = r.
Proof. destruct r; reflexivity. Qed.

Lemma sample2_carries_reply :
  reply_is_carried_forward sample2_with_llm.while_body.
Proof.
  intros prior U A env E. apply String.eqb_neq in E.
  split; [|split].
  - rewrite sample2_round, E. reflexivity.
  - intros r.
    rewrite while_true_unfold by exact sample2_body_consuming.
    unfold bind. rewrite sample2_round, E. reflexivity.
  - apply sample2_prompts.
Qed.

(** C5.  In the loops of sample2_with_llm.py and main.py (and of
    sample3_with_tool.py), a round with an input [U] other than "exit" ends
    with the assistant's reply [A] as the loop's message, and the next
    round starts by calling the console responder with [A]. *)
Theorem assistant_reply_is_next_prior :
  reply_is_carried_forward sample2_with_llm.while_body
  /\ reply_is_carried_forward main_py.while_body
  /\ reply_is_carried_forward sample3_with_tool.while_body.
Proof.
  split; [|split]; exact sample2_carries_reply.
Qed.

Lemma while_true_relay_round T P C env :
  content T <> "exit"%string ->
  let r := while_true sample4_multi_agent.while_body tt env in
  while_true sample4_multi_agent.while_body tt
    (Reply T :: Reply P :: Reply C :: env)
  = mkRun (relay_round T P C ++ trace r) (res r) (rest r).
Proof.
  intros E r. apply String.eqb_neq in E.
  rewrite while_true_unfold by exact sample4_body_consuming.
  unfold bind. rewrite sample4_round, E. reflexivity.
Qed.

(** C4.  Whatever rounds of the relay come first, each with a task [T]
    other than "exit", a plan [P] and a critique [C]: the loop goes through
    them, round after round, and then goes on as it would from the start.
    In a round the console responder is called with no message, the planner
    with [T] and the critic with [P]; [P] and [C] are printed; and what
    follows the round starts with a call of the console responder with no
    message. *)
Theorem relay_rounds :
  forall (rounds : list (Msg * Msg * Msg)) (env : list outcome),
    Forall (fun '(T, _, _) => content T <> "exit"%string) rounds ->
    let r := while_true sample4_multi_agent.while_body tt env in
    while_true sample4_multi_agent.while_body tt (relay_outcomes rounds ++ env)
    = mkRun (relay_trace rounds ++ trace r) (res r) (rest r)
    /\ (exists tl, trace r = Call user_agent None :: tl)
    /\ (forall T P C,
           invocations (relay_round T P C)
           = [(user_agent, None); (planner_agent, Some T);
              (critic_agent, Some P)]
           /\ In ("【計画案】" ++ nl ++ content P)%string
                 (printed (relay_round T P C))
           /\ In (nl ++ "【改善案】" ++ nl ++ content C)%string
                 (printed (relay_round T P C))).
Proof.
  intros rounds env H r. split; [|split].
  - induction H as [|[[T P] C] rounds HT _ IH].
    + symmetry. apply run_eta.
    + change (relay_outcomes ((T, P, C) :: rounds) ++ env)
        with (Reply T :: Reply P :: Reply C :: (relay_outcomes rounds ++ env)).
      change (relay_trace ((T, P, C) :: rounds))
        with (relay_round T P C ++ relay_trace rounds).
      rewrite (while_true_relay_round T P C _ HT), IH.
      cbn [trace res rest]. rewrite app_assoc. reflexivity.
  - apply sample4_prompts.
  - intros T P C. split; [reflexivity|].
    cbn [relay_round relay_request relay_plan relay_critique app printed In].
    tauto.
Qed.

(** * Exceptions at a suspended call *)

Lemma runs_loop_raised (entry dialogue : M unit) c e :
  runs_loop entry dialogue c ->
  resumable dialogue ->
  raised_at_suspension entry e
    (match e with
     | KeyboardInterrupt => [Print (nl ++ "プログラムが中断されました。")%string]
     | Exception d =>
         if c then [Print (nl ++ "エラーが発生しました: " ++ d)%string] else []
     end)
    (match e with
     | KeyboardInterrupt => Val tt
     | Exception d => if c then Val tt else Exn (Exception d)
     end).
Proof.
  intros [b Hb] Hr env0 Hp.
  assert (Hd : res (dialogue env0) = Pending).
  { rewrite Hb in Hp.
    destruct (res (dialogue env0)) as [[]|[|d]| |];
      try destruct c; simpl in Hp; congruence. }
  destruct (Hr env0 Hd) as (_ & a & x & tr0 & Ht & Hx).
  exists a, x, (map Print b ++ tr0). split.
  - rewrite Hb, Hd. simpl. rewrite Ht. apply app_assoc.
  - intros ext. rewrite Hb, Hx, Ht. simpl.
    destruct e as [|d]; [|destruct c]; simpl;
      rewrite <- ?app_assoc; simpl; rewrite ?app_nil_r; reflexivity.
Qed.

Lemma call_after_prints lines t p a x q :
  map Print lines ++ t = p ++ Call a x :: q ->
  exists p', p = map Print lines ++ p' /\ t = p' ++ Call a x :: q.
Proof.
  revert p. induction lines as [|s lines IH]; intros p H; simpl in H.
  - exists p. split; [reflexivity | exact H].
  - destruct p as [|e p]; simpl in H; inversion H; subst.
    destruct (IH p H2) as (p' & -> & ->).
    exists p'. split; reflexivity.
Qed.

Lemma call_before_print t s p a x q :
  t ++ [Print s] = p ++ Call a x :: q ->
  exists q', t = p ++ Call a x :: q'.
Proof.
  intros H. apply call_in_app in H.
  destruct H as [(q1 & H & _)|(p2 & _ & H)]; [exists q1; exact H|].
  destruct p2 as [|e [|e' p2]]; simpl in H; inversion H.
Qed.

Lemma runs_loop_suspends (entry dialogue : M unit) c :
  runs_loop entry dialogue c ->
  suspending dialogue ->
  every_call_suspends entry.
Proof.
  intros [b Hb] Hs env p a x q H. rewrite Hb in H.
  assert (Hd : exists p' q',
             p = map Print b ++ p'
             /\ trace (dialogue env) = p' ++ Call a x :: q').
  { destruct (res (dialogue env)) as [[]|[|d]| |]; [| |destruct c| |];
      cbn [trace] in H; apply call_after_prints in H;
      destruct H as (p' & Hp & H);
      first [ apply call_before_print in H; destruct H as [q' H];
              exists p', q'; split; assumption
            | exists p', q; split; assumption ]. }
  destruct Hd as (p' & q' & -> & Ht).
  destruct (Hs env p' a x q' Ht) as (env0 & ext & E & R).
  exists env0, ext. split; [exact E|].
  rewrite Hb, R. simpl. rewrite app_assoc. split; reflexivity.
Qed.

(** * One call at a time *)













(** * The scripts never reach the bound of [loop] *)

Lemma runs_loop_fuelled (entry dialogue : M unit) c :
  runs_loop entry dialogue c -> fuelled dialogue -> fuelled entry.
Proof.
  intros [b Hb] Hf env. rewrite Hb. specialize (Hf env).
  destruct (res (dialogue env)) as [[]|[|d]| |]; [| |destruct c| |];
    simpl; congruence.
Qed.

Lemma scripts_are_fuelled :
  fuelled sample2_with_llm.__main__
  /\ fuelled sample3_with_tool.__main__
  /\ fuelled sample4_multi_agent.__main__
  /\ fuelled main_py.__main__.
Proof.
  split; [|split; [|split]].
  - exact (runs_loop_fuelled _ _ _ sample2_entry
             (behaved_fuelled _ (sample2_loop_behaved None))).
  - exact (runs_loop_fuelled _ _ _ sample3_entry
             (behaved_fuelled _ (sample3_loop_behaved None))).
  - exact (runs_loop_fuelled _ _ _ sample4_entry
             (behaved_fuelled _ (sample4_loop_behaved tt))).
  - exact (runs_loop_fuelled _ _ _ main_py_entry
             (behaved_fuelled _ (main_py_loop_behaved None))).
Qed.

(** * Examples *)

Lemma exit_is_exact_match_example :
  res (sample2_with_llm.while_body None [Reply (said "exit")]) = Val Break
  /\ res (main_py.while_body None [Reply (said " exit ")]) <> Val Break
  /\ exists calls,
      invocations
        (trace (while_true sample4_multi_agent.while_body tt
                  [Reply (said "Exit")]))
      = (user_agent, None) :: (planner_agent, Some (said "Exit")) :: calls.
Proof.
  destruct exit_is_exact_match as (H2 & _ & _ & H4 & Hv).
  split; [|split].
  - apply (H2 None (said "exit") []). reflexivity.
  - apply (Hv None "ユーザー"%string user []).
  - apply (H4 tt (said "Exit") []). discriminate.
Defined.

Lemma exit_as_first_line_example :
  content (said "exit") = "exit"%string
  /\ exists banner,
      sample4_multi_agent.__main__ [Reply (said "exit"); Reply (answered "-")]
      = mkRun (map Print banner
                 ++ [Call user_agent None;
                     Return user_agent (Reply (said "exit"));
                     Print "対話を終了します。"])
              (Val tt) [Reply (answered "-")]
      /\ invocations
           (trace (sample4_multi_agent.__main__
                     [Reply (said "exit"); Reply (answered "-")]))
         = [(user_agent, None)].
Proof.
  split; [reflexivity|].
  apply (proj1 (proj2 exit_as_first_line)). reflexivity.
Defined.

Lemma relay_rounds_example :
  Forall (fun '(T, _, _) => content T <> "exit"%string)
    [(said "3日間の旅行プランを考えて", answered "plan", answered "critique")]
  /\ invocations
       (trace (while_true sample4_multi_agent.while_body tt
                 (relay_outcomes
                    [(said "3日間の旅行プランを考えて", answered "plan",
                      answered "critique")] ++ [])))
     = [(user_agent, None);
        (planner_agent, Some (said "3日間の旅行プランを考えて"));
        (critic_agent, Some (answered "plan"));
        (user_agent, None)].
Proof.
  assert (H : Forall (fun '(T, _, _) => content T <> "exit"%string)
                [(said "3日間の旅行プランを考えて", answered "plan",
                  answered "critique")])
    by (constructor; [discriminate | constructor]).
  split; [exact H|].
  destruct (relay_rounds _ [] H) as (E & _ & _).
  rewrite E. reflexivity.
Defined.

Lemma assistant_reply_is_next_prior_example :
  content (said "こんにちは") <> "exit"%string
  /\ res (sample2_with_llm.while_body None
            [Reply (said "こんにちは"); Reply (answered "hello")])
     = Val (Continue (Some (answered "hello")))
  /\ exists tl,
      trace (while_true main_py.while_body (Some (answered "hello")) [])
      = Call user_agent (Some (answered "hello")) :: tl.
Proof.
  destruct assistant_reply_is_next_prior as (H2 & Hm & _).
  split; [discriminate|]. split.
  - apply (H2 None (said "こんにちは") (answered "hello") []). discriminate.
  - apply (Hm None (said "こんにちは") (answered "hello") []). discriminate.
Defined.

(** * Induction along the rounds of a loop *)

(** To prove [P] of every run of the two-party loop: the cases of
    [sample2_loop], with [P] assumed of what follows a complete exchange. *)
Lemma two_party_loop_ind
    (P : option Msg -> list outcome -> run unit -> Prop) :
  (forall prior, P prior [] (mkRun [Call user_agent prior] Pending [])) ->
  (forall prior e env,
      P prior (Raise e :: env)
        (mkRun [Call user_agent prior; Return user_agent (Raise e)]
           (Exn e) env)) ->
  (forall prior m env,
      content m = "exit"%string ->
      P prior (Reply m :: env)
        (mkRun [Call user_agent prior; Return user_agent (Reply m);
                Print "対話を終了します。"]
           (Val tt) env)) ->
  (forall prior m,
      content m <> "exit"%string ->
      P prior [Reply m]
        (mkRun [Call user_agent prior; Return user_agent (Reply m);
                Call assistant_agent (Some m)]
           Pending [])) ->
  (forall prior m e env,
      content m <> "exit"%string ->
      P prior (Reply m :: Raise e :: env)
        (mkRun [Call user_agent prior; Return user_agent (Reply m);
                Call assistant_agent (Some m);
                Return assistant_agent (Raise e)]
           (Exn e) env)) ->
  (forall prior m a env r,
      content m <> "exit"%string ->
      r = while_true sample2_with_llm.while_body (Some a) env ->
      P (Some a) env r ->
      P prior (Reply m :: Reply a :: env)
        (mkRun ([Call user_agent prior; Return user_agent (Reply m);
                 Call assistant_agent (Some m);
                 Return assistant_agent (Reply a)] ++ trace r)
           (res r) (rest r))) ->
  forall prior env,
    P prior env (while_true sample2_with_llm.while_body prior env).
Proof.
  intros Hnil Hraise Hexit Hwait Hfail Hround prior env.
  remember (length env) as n eqn:En. revert prior env En.
  induction n as [n IH] using lt_wf_ind. intros prior env En.
  rewrite sample2_loop.
  destruct env as [|[m|e] env']; [apply Hnil | | apply Hraise].
  destruct (String.eqb_spec (content m) "exit") as [E|E];
    [apply Hexit; exact E|].
  destruct env' as [|[a|e] env''];
    [apply Hwait; exact E | | apply Hfail; exact E].
  apply Hround; [exact E | reflexivity |].
  apply (IH (length env'')); [subst n; simpl; lia | reflexivity].
Qed.

(** The same for the relay of sample4_multi_agent.py, along
    [sample4_loop]. *)
Lemma relay_loop_ind (P : list outcome -> run unit -> Prop) :
  P [] (mkRun [Call user_agent None] Pending []) ->
  (forall e env,
      P (Raise e :: env)
        (mkRun [Call user_agent None; Return user_agent (Raise e)]
           (Exn e) env)) ->
  (forall T env,
      content T = "exit"%string ->
      P (Reply T :: env)
        (mkRun [Call user_agent None; Return user_agent (Reply T);
                Print "対話を終了します。"]
           (Val tt) env)) ->
  (forall T,
      content T <> "exit"%string ->
      P [Reply T] (mkRun (relay_request T) Pending [])) ->
  (forall T e env,
      content T <> "exit"%string ->
      P (Reply T :: Raise e :: env)
        (mkRun (relay_request T ++ [Return planner_agent (Raise e)])
           (Exn e) env)) ->
  (forall T P0,
      content T <> "exit"%string ->
      P [Reply T; Reply P0]
        (mkRun (relay_request T ++ relay_plan P0) Pending [])) ->
  (forall T P0 e env,
      content T <> "exit"%string ->
      P (Reply T :: Reply P0 :: Raise e :: env)
        (mkRun (relay_request T ++ relay_plan P0
                  ++ [Return critic_agent (Raise e)])
           (Exn e) env)) ->
  (forall T P0 C env r,
      content T <> "exit"%string ->
      r = while_true sample4_multi_agent.while_body tt env ->
      P env r ->
      P (Reply T :: Reply P0 :: Reply C :: env)
        (mkRun (relay_round T P0 C ++ trace r) (res r) (rest r))) ->
  forall env, P env (while_true sample4_multi_agent.while_body tt env).
Proof.
  intros Hnil Hraise Hexit Hwait1 Hfail1 Hwait2 Hfail2 Hround env.
  remember (length env) as n eqn:En. revert env En.
  induction n as [n IH] using lt_wf_ind. intros env En.
  rewrite sample4_loop.
  destruct env as [|[T|e] env']; [apply Hnil | | apply Hraise].
  destruct (String.eqb_spec (content T) "exit") as [E|E];
    [apply Hexit; exact E|].
  destruct env' as [|[P0|e] [|[C|e'] env'']];
    [ apply Hwait1; exact E | apply Hwait2; exact E | | apply Hfail2; exact E
    | apply Hfail1; exact E | apply Hfail1; exact E | apply Hfail1; exact E ].
  apply Hround; [exact E | reflexivity |].
  apply (IH (length env'')); [subst n; simpl; lia | reflexivity].
Qed.

(** * The order of the turns *)

Lemma runs_loop_invocations (entry dialogue : M unit) c :
  runs_loop entry dialogue c ->
  forall env,
    invocations (trace (entry env)) = invocations (trace (dialogue env)).
Proof.
  intros [b Hb] env. rewrite Hb.
  destruct (res (dialogue env)) as [[]|[|d]| |]; [| |destruct c| |];
    cbn [trace]; rewrite ?invocations_app, invocations_prints;
    simpl; rewrite ?app_nil_r; reflexivity.
Qed.

Lemma called_app tr1 tr2 : called (tr1 ++ tr2) = called tr1 ++ called tr2.
Proof. unfold called. rewrite invocations_app. apply map_app. Qed.

Lemma in_turn_pass pipeline calls :
  in_turn pipeline calls -> in_turn pipeline (pipeline ++ calls).
Proof.
  intros (k & later & E). exists (S k), later.
  simpl. rewrite E. apply app_assoc.
Qed.

Lemma in_turn_start pipeline calls later :
  pipeline = calls ++ later -> in_turn pipeline calls.
Proof.
  intros E. exists 1, later. simpl. rewrite app_nil_r. exact E.
Qed.

Lemma two_party_loop_in_turn prior env :
  in_turn [user_agent; assistant_agent]
    (called (trace (while_true sample2_with_llm.while_body prior env))).
Proof.
  revert prior env.
  apply (two_party_loop_ind
           (fun _ _ r =>
              in_turn [user_agent; assistant_agent] (called (trace r))));
    intros.
  - apply (in_turn_start _ _ [assistant_agent]). reflexivity.
  - apply (in_turn_start _ _ [assistant_agent]). reflexivity.
  - apply (in_turn_start _ _ [assistant_agent]). reflexivity.
  - apply (in_turn_start _ _ []). reflexivity.
  - apply (in_turn_start _ _ []). reflexivity.
  - cbn [trace]. rewrite called_app.
    apply (in_turn_pass [user_agent; assistant_agent]). assumption.
Qed.

Lemma relay_loop_in_turn env :
  in_turn [user_agent; planner_agent; critic_agent]
    (called (trace (while_true sample4_multi_agent.while_body tt env))).
Proof.
  revert env.
  apply (relay_loop_ind
           (fun _ r =>
              in_turn [user_agent; planner_agent; critic_agent]
                (called (trace r))));
    intros.
  - apply (in_turn_start _ _ [planner_agent; critic_agent]). reflexivity.
  - apply (in_turn_start _ _ [planner_agent; critic_agent]). reflexivity.
  - apply (in_turn_start _ _ [planner_agent; critic_agent]). reflexivity.
  - apply (in_turn_start _ _ [critic_agent]). reflexivity.
  - apply (in_turn_start _ _ [critic_agent]). reflexivity.
  - apply (in_turn_start _ _ []). reflexivity.
  - apply (in_turn_start _ _ []). reflexivity.
  - cbn [trace]. rewrite called_app.
    apply (in_turn_pass [user_agent; planner_agent; critic_agent]).
    assumption.
Qed.

(** X1.  In every run of sample2_with_llm.py, sample3_with_tool.py and
    main.py the responders are called in strict alternation, the console
    responder first: the calls are the beginning of a repetition of
    [user_agent; assistant_agent], whatever the responders answer or
    raise. *)
Theorem two_party_turns_alternate :
  forall env : list outcome,
    in_turn [user_agent; assistant_agent]
      (called (trace (sample2_with_llm.__main__ env)))
    /\ in_turn [user_agent; assistant_agent]
         (called (trace (sample3_with_tool.__main__ env)))
    /\ in_turn [user_agent; assistant_agent]
         (called (trace (main_py.__main__ env))).
Proof.
  intros env. unfold called.
  rewrite (runs_loop_invocations _ _ _ sample2_entry).
  rewrite (runs_loop_invocations _ _ _ sample3_entry).
  rewrite (runs_loop_invocations _ _ _ main_py_entry).
  split; [|split]; apply two_party_loop_in_turn.
Qed.

(** X2.  In every run of sample4_multi_agent.py the responders are called
    in the order of the pipeline, over and over: console, planner, critic.
    No responder is skipped or called twice in a row, whatever the
    responders answer or raise. *)
Theorem relay_turns_follow_pipeline :
  forall env : list outcome,
    in_turn [user_agent; planner_agent; critic_agent]
      (called (trace (sample4_multi_agent.__main__ env))).
Proof.
  intros env. unfold called.
  rewrite (runs_loop_invocations _ _ _ sample4_entry).
  apply relay_loop_in_turn.
Qed.

(** * One model call for each request *)

Lemma count_app p tr1 tr2 : count p (tr1 ++ tr2) = count p tr1 + count p tr2.
Proof. unfold count. rewrite filter_app. apply length_app. Qed.

Lemma count_prints p lines :
  (forall s, p (Print s) = false) -> count p (map Print lines) = 0.
Proof.
  intros Hp. unfold count.
  induction lines as [|s lines IH]; simpl; [reflexivity|].
  rewrite Hp. exact IH.
Qed.

Lemma runs_loop_count (entry dialogue : M unit) c p :
  runs_loop entry dialogue c ->
  (forall s, p (Print s) = false) ->
  forall env, count p (trace (entry env)) = count p (trace (dialogue env)).
Proof.
  intros [b Hb] Hp env. rewrite Hb.
  assert (H1 : forall s, count p [Print s] = 0)
    by (intros s; unfold count; simpl; rewrite Hp; reflexivity).
  destruct (res (dialogue env)) as [[]|[|d]| |]; [| |destruct c| |];
    cbn [trace]; rewrite ?count_app, (count_prints p b Hp), ?H1; lia.
Qed.

Lemma two_party_loop_calls prior env :
  let tr := trace (while_true sample2_with_llm.while_body prior env) in
  count (is_call_of assistant_agent) tr = count is_request tr.
Proof.
  revert prior env.
  apply (two_party_loop_ind
           (fun _ _ r =>
              count (is_call_of assistant_agent) (trace r)
              = count is_request (trace r)));
    intros;
    try match goal with
      | H : content _ = _ |- _ => apply String.eqb_eq in H
      | H : content _ <> _ |- _ => apply String.eqb_neq in H
      end;
    cbn [trace]; rewrite ?count_app; unfold count in *; simpl;
    try match goal with H : (_ =? _)%string = _ |- _ => rewrite H end;
    simpl; congruence.
Qed.

Lemma relay_loop_calls env :
  let tr := trace (while_true sample4_multi_agent.while_body tt env) in
  count (is_call_of planner_agent) tr = count is_request tr
  /\ count (is_call_of critic_agent) tr
     = count (is_reply_of planner_agent) tr.
Proof.
  revert env.
  apply (relay_loop_ind
           (fun _ r =>
              count (is_call_of planner_agent) (trace r)
              = count is_request (trace r)
              /\ count (is_call_of critic_agent) (trace r)
                 = count (is_reply_of planner_agent) (trace r)));
    intros;
    try match goal with
      | H : content _ = _ |- _ => apply String.eqb_eq in H
      | H : content _ <> _ |- _ => apply String.eqb_neq in H
      end;
    cbn [trace relay_round relay_request relay_plan relay_critique];
    rewrite ?count_app; unfold count in *; simpl;
    try match goal with H : (_ =? _)%string = _ |- _ => rewrite H end;
    simpl; lia.
Qed.

(** X5.  In every run of the two-party scripts the assistant is called
    exactly once for each line of the console other than "exit": never
    for "exit", never twice for a line, and never without one. *)
Theorem one_assistant_call_per_request :
  forall env : list outcome,
    (let tr := trace (sample2_with_llm.__main__ env) in
     count (is_call_of assistant_agent) tr = count is_request tr)
    /\ (let tr := trace (sample3_with_tool.__main__ env) in
        count (is_call_of assistant_agent) tr = count is_request tr)
    /\ (let tr := trace (main_py.__main__ env) in
        count (is_call_of assistant_agent) tr = count is_request tr).
Proof.
  intros env. cbv zeta.
  rewrite !(runs_loop_count _ _ _ _ sample2_entry) by reflexivity.
  rewrite !(runs_loop_count _ _ _ _ sample3_entry) by reflexivity.
  rewrite !(runs_loop_count _ _ _ _ main_py_entry) by reflexivity.
  split; [|split]; apply two_party_loop_calls.
Qed.

(** X6.  In every run of sample4_multi_agent.py the planner is called
    exactly once for each task other than "exit", and the critic exactly
    once for each plan the planner returns. *)
Theorem relay_calls_per_task :
  forall env : list outcome,
    let tr := trace (sample4_multi_agent.__main__ env) in
    count (is_call_of planner_agent) tr = count is_request tr
    /\ count (is_call_of critic_agent) tr
       = count (is_reply_of planner_agent) tr.
Proof.
  intros env. cbv zeta.
  rewrite !(runs_loop_count _ _ _ _ sample4_entry) by reflexivity.
  apply relay_loop_calls.
Qed.

(** * The arguments of the print calls *)

Lemma printed_app tr1 tr2 : printed (tr1 ++ tr2) = printed tr1 ++ printed tr2.
Proof.
  induction tr1 as [|[s|a x|a o] tr1 IH]; simpl; congruence.
Qed.

Lemma printed_prints lines : printed (map Print lines) = lines.
Proof. induction lines; simpl; congruence. Qed.

(** * Whole conversations *)

Lemma two_party_exchanges prior rounds :
  forall env,
    Forall (fun '(U, _) => content U <> "exit"%string) rounds ->
    let r := while_true sample2_with_llm.while_body
               (last_answer prior rounds) env in
    while_true sample2_with_llm.while_body prior
      (exchange_outcomes rounds ++ env)
    = mkRun (exchange_trace prior rounds ++ trace r) (res r) (rest r).
Proof.
  revert prior.
  induction rounds as [|[U A] rounds IH]; intros prior env H; cbv zeta.
  - symmetry. apply run_eta.
  - inversion H as [|? ? HU Hrest]; subst.
    apply String.eqb_neq in HU.
    change (exchange_outcomes ((U, A) :: rounds) ++ env)
      with (Reply U :: Reply A :: (exchange_outcomes rounds ++ env)).
    rewrite (sample2_loop prior (Reply U :: _)), HU. cbv zeta.
    rewrite (IH (Some A) env Hrest).
    cbn [trace res rest exchange_trace last_answer].
    rewrite <- app_assoc. reflexivity.
Qed.

Lemma two_party_conversation (entry : M unit) c :
  runs_loop entry (while_true sample2_with_llm.while_body None) c ->
  forall rounds X ext,
    Forall (fun '(U, _) => content U <> "exit"%string) rounds ->
    content X = "exit"%string ->
    entry (exchange_outcomes rounds ++ Reply X :: ext)
    = mkRun (map Print (printed (trace (entry [])))
               ++ exchange_trace None rounds
               ++ [Call user_agent (last_answer None rounds);
                   Return user_agent (Reply X);
                   Print "対話を終了します。"])
            (Val tt) ext.
Proof.
  intros [b Hr] rounds X ext H HX.
  assert (F : printed (trace (entry [])) = b).
  { rewrite Hr, sample2_loop. cbn [trace res].
    rewrite printed_app, printed_prints. cbn [printed]. apply app_nil_r. }
  rewrite F, Hr, (two_party_exchanges None rounds _ H). cbv zeta.
  apply String.eqb_eq in HX.
  rewrite sample2_loop, HX. reflexivity.
Qed.

(** X9.  A whole conversation with sample2_with_llm.py,
    sample3_with_tool.py or main.py: after any number of exchanges, none of
    them opened by "exit", the line "exit" ends the script normally.  Each
    prompt but the first is given the assistant's previous reply, whatever
    it says (a reply "exit" of the assistant ends nothing); the closing
    line is the last event; what the environment holds after "exit" is not
    consumed. *)
Theorem two_party_conversation_ends_on_exit :
  forall (rounds : list (Msg * Msg)) (X : Msg) (ext : list outcome),
    Forall (fun '(U, _) => content U <> "exit"%string) rounds ->
    content X = "exit"%string ->
    let ending :=
      exchange_trace None rounds
        ++ [Call user_agent (last_answer None rounds);
            Return user_agent (Reply X);
            Print "対話を終了します。"] in
    sample2_with_llm.__main__ (exchange_outcomes rounds ++ Reply X :: ext)
    = mkRun (map Print (printed (trace (sample2_with_llm.__main__ [])))
               ++ ending)
            (Val tt) ext
    /\ sample3_with_tool.__main__ (exchange_outcomes rounds ++ Reply X :: ext)
       = mkRun (map Print (printed (trace (sample3_with_tool.__main__ [])))
                  ++ ending)
               (Val tt) ext
    /\ main_py.__main__ (exchange_outcomes rounds ++ Reply X :: ext)
       = mkRun (map Print (printed (trace (main_py.__main__ []))) ++ ending)
               (Val tt) ext.
Proof.
  intros rounds X ext H HX ending. split; [|split].
  - exact (two_party_conversation _ _ sample2_entry rounds X ext H HX).
  - exact (two_party_conversation _ _ sample3_entry rounds X ext H HX).
  - exact (two_party_conversation _ _ main_py_entry rounds X ext H HX).
Qed.

Lemma two_party_conversation_ends_on_exit_example :
  Forall (fun '(U, _) => content U <> "exit"%string)
    [(said "こんにちは", answered "exit"); (said "", answered "hello")]
  /\ content (said "exit") = "exit"%string
  /\ res (main_py.__main__
            (exchange_outcomes
               [(said "こんにちは", answered "exit"); (said "", answered "hello")]
               ++ Reply (said "exit") :: [Reply (said "more")]))
     = Val tt
  /\ rest (main_py.__main__
             (exchange_outcomes
                [(said "こんにちは", answered "exit");
                 (said "", answered "hello")]
                ++ Reply (said "exit") :: [Reply (said "more")]))
     = [Reply (said "more")].
Proof.
  assert (H : Forall (fun '(U, _) => content U <> "exit"%string)
                [(said "こんにちは", answered "exit");
                 (said "", answered "hello")])
    by (repeat constructor; discriminate).
  split; [exact H|]. split; [reflexivity|].
  destruct (two_party_conversation_ends_on_exit
              _ (said "exit") [Reply (said "more")] H eq_refl)
    as (_ & _ & E).
  rewrite E. split; reflexivity.
Defined.

Lemma relay_loop_rounds rounds :
  forall env,
    Forall (fun '(T, _, _) => content T <> "exit"%string) rounds ->
    let r := while_true sample4_multi_agent.while_body tt env in
    while_true sample4_multi_agent.while_body tt (relay_outcomes rounds ++ env)
    = mkRun (relay_trace rounds ++ trace r) (res r) (rest r).
Proof.
  induction rounds as [|[[T P] C] rounds IH]; intros env H; cbv zeta.
  - symmetry. apply run_eta.
  - inversion H as [|? ? HT Hrest]; subst.
    change (relay_outcomes ((T, P, C) :: rounds) ++ env)
      with (Reply T :: Reply P :: Reply C :: (relay_outcomes rounds ++ env)).
    change (relay_trace ((T, P, C) :: rounds))
      with (relay_round T P C ++ relay_trace rounds).
    rewrite (while_true_relay_round T P C _ HT), (IH env Hrest).
    cbn [trace res rest]. rewrite app_assoc. reflexivity.
Qed.

(** X10.  A whole session with sample4_multi_agent.py: after any number of
    complete rounds, none of them for the task "exit", the line "exit"
    ends the script normally.  The run is the lines before the first
    prompt, the rounds one after the other, each starting from a prompt
    with no message, and the closing line; no plan or critique of an
    earlier round is passed to a later one, and what the environment holds
    after "exit" is not consumed. *)
Theorem relay_session_ends_on_exit :
  forall (rounds : list (Msg * Msg * Msg)) (X : Msg) (ext : list outcome),
    Forall (fun '(T, _, _) => content T <> "exit"%string) rounds ->
    content X = "exit"%string ->
    sample4_multi_agent.__main__ (relay_outcomes rounds ++ Reply X :: ext)
    = mkRun (map Print (printed (trace (sample4_multi_agent.__main__ [])))
               ++ relay_trace rounds
               ++ [Call user_agent None;
                   Return user_agent (Reply X);
                   Print "対話を終了します。"])
            (Val tt) ext.
Proof.
  intros rounds X ext H HX.
  destruct sample4_entry as [b Hr].
  assert (F : printed (trace (sample4_multi_agent.__main__ [])) = b).
  { rewrite Hr, sample4_loop. cbn [trace res].
    rewrite printed_app, printed_prints. cbn [printed]. apply app_nil_r. }
  rewrite F, Hr, (relay_loop_rounds rounds _ H). cbv zeta.
  apply String.eqb_eq in HX.
  rewrite sample4_loop, HX. reflexivity.
Qed.

Lemma relay_session_ends_on_exit_example :
  Forall (fun '(T, _, _) => content T <> "exit"%string)
    [(said "Pythonを学ぶための計画を立てて", answered "plan", answered "critique")]
  /\ content (said "exit") = "exit"%string
  /\ called
       (trace (sample4_multi_agent.__main__
                 (relay_outcomes
                    [(said "Pythonを学ぶための計画を立てて", answered "plan",
                      answered "critique")]
                    ++ Reply (said "exit") :: [])))
     = [user_agent; planner_agent; critic_agent; user_agent].
Proof.
  assert (H : Forall (fun '(T, _, _) => content T <> "exit"%string)
                [(said "Pythonを学ぶための計画を立てて", answered "plan",
                  answered "critique")])
    by (repeat constructor; discriminate).
  split; [exact H|]. split; [reflexivity|].
  rewrite (relay_session_ends_on_exit _ (said "exit") [] H eq_refl).
  reflexivity.
Defined.

(** * The echo responders in a chain *)

(** X11.  Two echo responders one after the other, the second replying to
    the reply of the first: the second prints the text the first was
    constructed with, and the result is the message of the second alone,
    whatever the first responder and the incoming message are.  Nothing is
    awaited: the environment is left as it was. *)
Theorem echo_responders_chain :
  forall (a b : sample1_basic_dialogue.DialogueAgent) (x : Msg)
         (env : list outcome),
    (r <- sample1_basic_dialogue.reply a x ;;
     sample1_basic_dialogue.reply b r) env
    = mkRun
        [Print ("[" ++ sample1_basic_dialogue.name a
                    ++ "]がメッセージを受信: '" ++ content x ++ "'")%string;
         Print ("[" ++ sample1_basic_dialogue.name b
                    ++ "]がメッセージを受信: '"
                    ++ sample1_basic_dialogue.response_text a ++ "'")%string]
        (Val (mkMsg (sample1_basic_dialogue.name b)
                (sample1_basic_dialogue.response_text b) assistant))
        env.
Proof. intros a b x env. reflexivity. Qed.

(** * A responder raises: every script, every turn *)

Lemma runs_loop_first_lines (entry dialogue : M unit) c :
  runs_loop entry dialogue c ->
  dialogue [] = mkRun [Call user_agent None] Pending [] ->
  exists banner,
    printed (trace (entry [])) = banner
    /\ forall env,
        let r := dialogue env in
        entry env
        = match res r with
          | Exn KeyboardInterrupt =>
              mkRun (map Print banner ++ trace r
                       ++ [Print (nl ++ "プログラムが中断されました。")%string])
                    (Val tt) (rest r)
          | Exn (Exception d) =>
              if c then
                mkRun (map Print banner ++ trace r
                         ++ [Print (nl ++ "エラーが発生しました: " ++ d)%string])
                      (Val tt) (rest r)
              else
                mkRun (map Print banner ++ trace r)
                      (Exn (Exception d)) (rest r)
          | _ => mkRun (map Print banner ++ trace r) (res r) (rest r)
          end.
Proof.
  intros [b Hb] H0. exists b. split; [|exact Hb].
  rewrite Hb, H0. cbn [trace res].
  rewrite printed_app, printed_prints. cbn [printed]. apply app_nil_r.
Qed.

Lemma two_party_script_raise (entry : M unit) c e :
  runs_loop entry (while_true sample2_with_llm.while_body None) c ->
  two_party_raise entry e
    (match e with
     | KeyboardInterrupt => [Print (nl ++ "プログラムが中断されました。")%string]
     | Exception d =>
         if c then [Print (nl ++ "エラーが発生しました: " ++ d)%string] else []
     end)
    (match e with
     | KeyboardInterrupt => Val tt
     | Exception d => if c then Val tt else Exn (Exception d)
     end).
Proof.
  intros Hr rounds ext H.
  destruct (runs_loop_first_lines _ _ _ Hr eq_refl) as (b & F & Hb).
  cbv zeta. rewrite F. split.
  - rewrite Hb, (two_party_exchanges None rounds _ H). cbv zeta.
    rewrite sample2_loop. cbn [trace res rest].
    destruct e as [|d]; [|destruct c];
      rewrite <- ?app_assoc; cbn [app]; rewrite ?app_nil_r; reflexivity.
  - intros U HU. apply String.eqb_neq in HU.
    rewrite Hb, (two_party_exchanges None rounds _ H). cbv zeta.
    rewrite sample2_loop, HU. cbn [trace res rest].
    destruct e as [|d]; [|destruct c];
      rewrite <- ?app_assoc; cbn [app]; rewrite ?app_nil_r; reflexivity.
Qed.

Lemma relay_script_raise e :
  relay_raise sample4_multi_agent.__main__ e
    (match e with
     | KeyboardInterrupt => [Print (nl ++ "プログラムが中断されました。")%string]
     | Exception d => [Print (nl ++ "エラーが発生しました: " ++ d)%string]
     end)
    (Val tt).
Proof.
  intros rounds ext H.
  destruct (runs_loop_first_lines _ _ _ sample4_entry eq_refl)
    as (b & F & Hb).
  cbv zeta. rewrite F. split; [|intros T HT; split; [|intros P]].
  - rewrite Hb, (relay_loop_rounds rounds _ H). cbv zeta.
    rewrite sample4_loop. cbn [trace res rest].
    destruct e as [|d]; rewrite <- ?app_assoc; reflexivity.
  - apply String.eqb_neq in HT.
    rewrite Hb, (relay_loop_rounds rounds _ H). cbv zeta.
    rewrite sample4_loop, HT. cbn [trace res rest].
    destruct e as [|d]; rewrite <- ?app_assoc; reflexivity.
  - apply String.eqb_neq in HT.
    rewrite Hb, (relay_loop_rounds rounds _ H). cbv zeta.
    rewrite sample4_loop, HT. cbn [trace res rest].
    destruct e as [|d]; rewrite <- ?app_assoc; reflexivity.
Qed.

(** C9.  An [Exception] with description [d] raised by a responder in any
    turn, after any number of complete exchanges or rounds: at the console
    prompt, in the assistant's turn, in the planner's or in the critic's.
    sample2_with_llm.py, sample3_with_tool.py and sample4_multi_agent.py
    print one line that ends with [d] and return; main.py, which has no
    handler for it, prints nothing and ends with the exception propagating.
    In all four the call that failed is the last call of the run and what
    the environment would answer next is not consumed: no turn is retried
    and no round resumed.  The same holds of every call at which a script
    is suspended, and every call of a run is such a call. *)
Theorem exception_in_a_turn :
  exception_is_reported sample2_with_llm.__main__
  /\ exception_is_reported sample3_with_tool.__main__
  /\ exception_is_reported sample4_multi_agent.__main__
  /\ exception_is_unhandled main_py.__main__
  /\ (forall d : string,
         two_party_raise sample2_with_llm.__main__ (Exception d)
           [Print (nl ++ "エラーが発生しました: " ++ d)%string] (Val tt))
  /\ (forall d : string,
         two_party_raise sample3_with_tool.__main__ (Exception d)
           [Print (nl ++ "エラーが発生しました: " ++ d)%string] (Val tt))
  /\ (forall d : string,
         relay_raise sample4_multi_agent.__main__ (Exception d)
           [Print (nl ++ "エラーが発生しました: " ++ d)%string] (Val tt))
  /\ (forall d : string,
         two_party_raise main_py.__main__ (Exception d)
           [] (Exn (Exception d))).
Proof.
  repeat match goal with |- _ /\ _ => split end.
  - split; [|intros d].
    + exact (runs_loop_suspends _ _ _ sample2_entry
               (behaved_suspending _ (sample2_loop_behaved None))).
    + exact (runs_loop_raised _ _ _ (Exception d) sample2_entry
               (behaved_resumable _ (sample2_loop_behaved None))).
  - split; [|intros d].
    + exact (runs_loop_suspends _ _ _ sample3_entry
               (behaved_suspending _ (sample3_loop_behaved None))).
    + exact (runs_loop_raised _ _ _ (Exception d) sample3_entry
               (behaved_resumable _ (sample3_loop_behaved None))).
  - split; [|intros d].
    + exact (runs_loop_suspends _ _ _ sample4_entry
               (behaved_suspending _ (sample4_loop_behaved tt))).
    + exact (runs_loop_raised _ _ _ (Exception d) sample4_entry
               (behaved_resumable _ (sample4_loop_behaved tt))).
  - split; [|intros d].
    + exact (runs_loop_suspends _ _ _ main_py_entry
               (behaved_suspending _ (main_py_loop_behaved None))).
    + exact (runs_loop_raised _ _ _ (Exception d) main_py_entry
               (behaved_resumable _ (main_py_loop_behaved None))).
  - intros d.
    exact (two_party_script_raise _ _ (Exception d) sample2_entry).
  - intros d.
    exact (two_party_script_raise _ _ (Exception d) sample3_entry).
  - intros d. exact (relay_script_raise (Exception d)).
  - intros d.
    exact (two_party_script_raise _ _ (Exception d) main_py_entry).
Qed.

(** The assistant fails in the second exchange of sample2_with_llm.py,
    sample3_with_tool.py and main.py, and the critic in the second round of
    sample4_multi_agent.py. *)
Lemma exception_in_a_turn_example :
  Forall (fun '(U, _) => content U <> "exit"%string)
    [(said "こんにちは", answered "hello")]
  /\ Forall (fun '(T, _, _) => content T <> "exit"%string)
       [(said "3日間の旅行プランを考えて", answered "plan", answered "critique")]
  /\ content (said "今の時間は？") <> "exit"%string
  /\ (let r :=
        sample2_with_llm.__main__
          (exchange_outcomes [(said "こんにちは", answered "hello")]
             ++ Reply (said "今の時間は？")
             :: Raise (Exception "connection refused")
             :: [Reply (said "exit")]) in
      res r = Val tt
      /\ rest r = [Reply (said "exit")]
      /\ last (printed (trace r)) ""%string
         = (nl ++ "エラーが発生しました: connection refused")%string
      /\ called (trace r)
         = [user_agent; assistant_agent; user_agent; assistant_agent])
  /\ (let r :=
        sample3_with_tool.__main__
          (exchange_outcomes [(said "こんにちは", answered "hello")]
             ++ Reply (said "今の時間は？")
             :: Raise (Exception "connection refused")
             :: [Reply (said "exit")]) in
      res r = Val tt
      /\ rest r = [Reply (said "exit")]
      /\ last (printed (trace r)) ""%string
         = (nl ++ "エラーが発生しました: connection refused")%string
      /\ called (trace r)
         = [user_agent; assistant_agent; user_agent; assistant_agent])
  /\ (let r :=
        sample4_multi_agent.__main__
          (relay_outcomes
             [(said "3日間の旅行プランを考えて", answered "plan",
               answered "critique")]
             ++ Reply (said "今の時間は？") :: Reply (answered "plan")
             :: Raise (Exception "connection refused")
             :: [Reply (said "exit")]) in
      res r = Val tt
      /\ rest r = [Reply (said "exit")]
      /\ last (printed (trace r)) ""%string
         = (nl ++ "エラーが発生しました: connection refused")%string
      /\ called (trace r)
         = [user_agent; planner_agent; critic_agent;
            user_agent; planner_agent; critic_agent])
  /\ (let r :=
        main_py.__main__
          (exchange_outcomes [(said "こんにちは", answered "hello")]
             ++ Reply (said "今の時間は？")
             :: Raise (Exception "connection refused")
             :: [Reply (said "exit")]) in
      res r = Exn (Exception "connection refused")
      /\ rest r = [Reply (said "exit")]
      /\ last (printed (trace r)) ""%string
         = last (printed (trace (main_py.__main__ []))) ""%string
      /\ called (trace r)
         = [user_agent; assistant_agent; user_agent; assistant_agent]).
Proof.
  assert (H2 : Forall (fun '(U, _) => content U <> "exit"%string)
                 [(said "こんにちは", answered "hello")])
    by (repeat constructor; discriminate).
  assert (H4 : Forall (fun '(T, _, _) => content T <> "exit"%string)
                 [(said "3日間の旅行プランを考えて", answered "plan",
                   answered "critique")])
    by (repeat constructor; discriminate).
  assert (HU : content (said "今の時間は？") <> "exit"%string)
    by discriminate.
  destruct exception_in_a_turn as (_ & _ & _ & _ & R2 & R3 & R4 & Rm).
  split; [exact H2|]. split; [exact H4|]. split; [exact HU|].
  split; [|split; [|split]]; cbv zeta.
  - destruct (R2 "connection refused"%string _ [Reply (said "exit")] H2)
      as [_ E].
    rewrite (E _ HU). repeat split.
  - destruct (R3 "connection refused"%string _ [Reply (said "exit")] H2)
      as [_ E].
    rewrite (E _ HU). repeat split.
  - destruct (R4 "connection refused"%string _ [Reply (said "exit")] H4)
      as [_ E].
    destruct (E _ HU) as [_ E'].
    rewrite (E' (answered "plan")). repeat split.
  - destruct (Rm "connection refused"%string _ [Reply (said "exit")] H2)
      as [_ E].
    rewrite (E _ HU). repeat split.
Defined.

(** * An interrupt of the operator *)



